(** * NSW Rural Fire Service feed platform

    A shallow embedding of
    [homeassistant/components/geo_location/nsw_rural_fire_service_feed.py]:
    the feed manager that reconciles the entries of a fetched feed with the
    set of external ids it manages, and the location event entity that
    refreshes itself from the manager's entries.

    The manager is a Python object mutated in place; it is modelled by
    explicit state passing.  Every call the manager makes to the outside
    (the dispatcher, the entity constructor, [add_entities]) is recorded
    together with the manager's state at the moment of the call, which is
    what a callee holding a reference to the manager could read.  Logging
    calls ([_LOGGER.debug], [_LOGGER.warning]) are left out. *)

From Stdlib Require Import Floats.PrimFloat.
From stdpp Require Import base option list strings gmap sets.

#[local] Set Warnings "-clear-no-such-hyp".

(** ** Feed entries (objects of the [geojson_client] library)

    Only the attributes read by this platform are kept.  A publication
    date is a [datetime]; it is represented by its POSIX timestamp. *)

Definition datetime := Z.

Module FeedEntry.
Record t := {
  external_id : string;
  title : option string;
  distance_to_home : option float;
  coordinates : float * float;
  attribution : option string;
  category : option string;
  publication_date : option datetime;
  location : option string;
  council_area : option string;
  status : option string;
  type : option string;
  fire : option bool;
  size : option string;
  responsible_agency : option string
}.
End FeedEntry.

(** Status values returned by [self._feed.update()], the constants
    [geojson_client.UPDATE_OK], [UPDATE_OK_NO_DATA] and [UPDATE_ERROR]. *)
Definition UPDATE_OK : string := "OK".
Definition UPDATE_OK_NO_DATA : string := "OK_NO_DATA".
Definition UPDATE_ERROR : string := "ERROR".

(** [SIGNAL_DELETE_ENTITY.format(external_id)] and
    [SIGNAL_UPDATE_ENTITY.format(external_id)]. *)
Definition SIGNAL_DELETE_ENTITY (external_id : string) : string :=
  "nsw_rural_fire_service_feed_delete_" +:+ external_id.
Definition SIGNAL_UPDATE_ENTITY (external_id : string) : string :=
  "nsw_rural_fire_service_feed_update_" +:+ external_id.

(** Attribute keys and other constants of the module. *)
Definition ATTR_CATEGORY : string := "category".
Definition ATTR_COUNCIL_AREA : string := "council_area".
Definition ATTR_EXTERNAL_ID : string := "external_id".
Definition ATTR_FIRE : string := "fire".
Definition ATTR_LOCATION : string := "location".
Definition ATTR_PUBLICATION_DATE : string := "publication_date".
Definition ATTR_RESPONSIBLE_AGENCY : string := "responsible_agency".
Definition ATTR_SIZE : string := "size".
Definition ATTR_STATUS : string := "status".
Definition ATTR_TYPE : string := "type".
Definition DEFAULT_UNIT_OF_MEASUREMENT : string := "km".
Definition SOURCE : string := "nsw_rural_fire_service_feed".

(** Values found in the state attributes of an entity; Python's [None]
    is the [None] of [option]. *)
Inductive attribute_value :=
| str_value (s : string)
| bool_value (b : bool)
| datetime_value (d : datetime).

(** Truth value of [value] in a condition: [None] and the empty string
    are false, [False] is false, a [datetime] is always true. *)
Definition truthy (value : option attribute_value) : bool :=
  match value with
  | None => false
  | Some (str_value s) => bool_decide (s ≠ "")
  | Some (bool_value b) => b
  | Some (datetime_value _) => true
  end.

(** [isinstance(value, bool)] *)
Definition isinstance_bool (value : option attribute_value) : bool :=
  match value with
  | Some (bool_value _) => true
  | _ => false
  end.

(** ** The location event entity *)

Module NswRuralFireServiceLocationEvent.
(** The attribute [_feed_manager] is a reference to the shared manager
    object; it is not stored in the record: the operations that
    dereference it take the manager's current entries as an argument. *)
Record t := {
  _external_id : string;
  _name : option string;
  _distance : option float;
  _latitude : option float;
  _longitude : option float;
  _attribution : option string;
  _category : option string;
  _publication_date : option datetime;
  _location : option string;
  _council_area : option string;
  _status : option string;
  _type : option string;
  _fire : option bool;
  _size : option string;
  _responsible_agency : option string
}.

Definition __init__ (external_id : string) : t :=
  {| _external_id := external_id;
     _name := None; _distance := None; _latitude := None;
     _longitude := None; _attribution := None; _category := None;
     _publication_date := None; _location := None;
     _council_area := None; _status := None; _type := None;
     _fire := None; _size := None; _responsible_agency := None |}.

Definition _update_from_feed (self : t) (feed_entry : FeedEntry.t) : t :=
  {| _external_id := _external_id self;
     _name := FeedEntry.title feed_entry;
     _distance := FeedEntry.distance_to_home feed_entry;
     _latitude := Some (fst (FeedEntry.coordinates feed_entry));
     _longitude := Some (snd (FeedEntry.coordinates feed_entry));
     _attribution := FeedEntry.attribution feed_entry;
     _category := FeedEntry.category feed_entry;
     _publication_date := FeedEntry.publication_date feed_entry;
     _location := FeedEntry.location feed_entry;
     _council_area := FeedEntry.council_area feed_entry;
     _status := FeedEntry.status feed_entry;
     _type := FeedEntry.type feed_entry;
     _fire := FeedEntry.fire feed_entry;
     _size := FeedEntry.size feed_entry;
     _responsible_agency := FeedEntry.responsible_agency feed_entry |}.

(** [feed_entries] is [self._feed_manager.feed_entries] at the time of
    the call.  A feed entry object is truthy, so [if feed_entry:] tests
    that [dict.get] found one. *)
Definition async_update (self : t)
    (feed_entries : gmap string FeedEntry.t) : t :=
  match feed_entries !! _external_id self with
  | Some feed_entry => _update_from_feed self feed_entry
  | None => self
  end.

(** Targets connected to the dispatcher by [async_added_to_hass]. *)
Inductive callback := _delete_callback | _update_callback.

(** The two [async_dispatcher_connect] calls, as (signal, target). *)
Definition async_added_to_hass (self : t) : list (string * callback) :=
  [(SIGNAL_DELETE_ENTITY (_external_id self), _delete_callback);
   (SIGNAL_UPDATE_ENTITY (_external_id self), _update_callback)].

Definition should_poll (self : t) : bool := false.
Definition source (self : t) : string := SOURCE.
Definition unit_of_measurement (self : t) : string :=
  DEFAULT_UNIT_OF_MEASUREMENT.

Section attributes.
(** [homeassistant.const.ATTR_ATTRIBUTION] *)
Variable ATTR_ATTRIBUTION : string.

(** The pairs the loop of [device_state_attributes] runs over. *)
Definition attribute_items (self : t)
    : list (string * option attribute_value) :=
  [(ATTR_EXTERNAL_ID, Some (str_value (_external_id self)));
   (ATTR_CATEGORY, str_value <$> _category self);
   (ATTR_LOCATION, str_value <$> _location self);
   (ATTR_ATTRIBUTION, str_value <$> _attribution self);
   (ATTR_PUBLICATION_DATE, datetime_value <$> _publication_date self);
   (ATTR_COUNCIL_AREA, str_value <$> _council_area self);
   (ATTR_STATUS, str_value <$> _status self);
   (ATTR_TYPE, str_value <$> _type self);
   (ATTR_FIRE, bool_value <$> _fire self);
   (ATTR_SIZE, str_value <$> _size self);
   (ATTR_RESPONSIBLE_AGENCY, str_value <$> _responsible_agency self)].

(** One iteration:
    [if value or isinstance(value, bool): attributes[key] = value] *)
Definition add_attribute (attributes : gmap string attribute_value)
    (item : string * option attribute_value)
    : gmap string attribute_value :=
  let '(key, value) := item in
  if truthy value || isinstance_bool value then
    match value with
    | Some v => <[key := v]> attributes
    | None => attributes
    end
  else attributes.

Definition device_state_attributes (self : t)
    : gmap string attribute_value :=
  foldl add_attribute ∅ (attribute_items self).
End attributes.
End NswRuralFireServiceLocationEvent.

(** ** Iteration over a Python set

    A [for] loop over a set visits every element once, in an order the
    language leaves open.  The development is parametric in that order. *)
Class SetIteration := {
  set_iter : gset string → list string;
  set_iter_perm : ∀ X, set_iter X ≡ₚ elements X
}.

(** The order of [elements], used to run the model on concrete inputs. *)
Definition elements_iteration : SetIteration :=
  {| set_iter := elements; set_iter_perm := λ X, reflexivity (elements X) |}.

(** ** The feed manager *)

Module NswRuralFireServiceFeedManager.
Record t := {
  feed_entries : gmap string FeedEntry.t;
  _managed_external_ids : gset string
}.

(** State of a manager built by [__init__]. *)
Definition __init__ : t :=
  {| feed_entries := ∅; _managed_external_ids := ∅ |}.

(** Calls made by the manager to its collaborators. *)
Inductive call :=
| dispatcher_send (signal : string)
| new_location_event (external_id : string)
| add_entities (new_entities : list NswRuralFireServiceLocationEvent.t)
               (update_before_add : bool).

(** A call and the manager's state when it is made. *)
Definition observation : Type := call * t.

Inductive exn := KeyError (key : string).

(** Outcome of running a method: a value or an exception, the state the
    manager is left in and the calls made, oldest first. *)
Record outcome (A : Type) := {
  result : exn + A;
  final : t;
  trace : list observation
}.
Arguments result {A} _.
Arguments final {A} _.
Arguments trace {A} _.

Definition M (A : Type) : Type := t → outcome A.

#[global] Instance M_ret : MRet M := λ A a self,
  {| result := inr a; final := self; trace := [] |}.

#[global] Instance M_bind : MBind M := λ A B f m self,
  let o := m self in
  match result o with
  | inl e => {| result := inl e; final := final o; trace := trace o |}
  | inr a =>
      let o' := f a (final o) in
      {| result := result o'; final := final o';
         trace := trace o ++ trace o' |}
  end.

Definition get : M t := λ self,
  {| result := inr self; final := self; trace := [] |}.

Definition put (self' : t) : M unit := λ _,
  {| result := inr tt; final := self'; trace := [] |}.

Definition raise {A} (e : exn) : M A := λ self,
  {| result := inl e; final := self; trace := [] |}.

Definition perform (c : call) : M unit := λ self,
  {| result := inr tt; final := self; trace := [(c, self)] |}.

(** [for x in l: acc = body x acc] *)
Fixpoint for_in {A S : Type} (l : list A) (acc : S)
    (body : A → S → M S) : M S :=
  match l with
  | [] => mret acc
  | x :: l' => acc' ← body x acc; for_in l' acc' body
  end.

(** [self.feed_entries = d] *)
Definition set_feed_entries (d : gmap string FeedEntry.t) : M unit :=
  self ← get;
  put {| feed_entries := d;
         _managed_external_ids := _managed_external_ids self |}.

(** [self._managed_external_ids.remove(external_id)]: raises [KeyError]
    when the element is missing. *)
Definition managed_remove (external_id : string) : M unit :=
  self ← get;
  if decide (external_id ∈ _managed_external_ids self) then
    put {| feed_entries := feed_entries self;
           _managed_external_ids :=
             _managed_external_ids self ∖ {[external_id]} |}
  else raise (KeyError external_id).

(** [self._managed_external_ids.add(external_id)] *)
Definition managed_add (external_id : string) : M unit :=
  self ← get;
  put {| feed_entries := feed_entries self;
         _managed_external_ids :=
           _managed_external_ids self ∪ {[external_id]} |}.

(** [NswRuralFireServiceLocationEvent(self, external_id)] *)
Definition new_entity_for (external_id : string)
    : M NswRuralFireServiceLocationEvent.t :=
  perform (new_location_event external_id);;
  mret (NswRuralFireServiceLocationEvent.__init__ external_id).

(** [{entry.external_id: entry for entry in feed_entries}] *)
Definition entries_by_id (feed_entries : list FeedEntry.t)
    : gmap string FeedEntry.t :=
  foldl (λ d entry, <[FeedEntry.external_id entry := entry]> d)
        ∅ feed_entries.

Section methods.
Context `{SetIteration}.

Definition _generate_new_entities (external_ids : gset string)
    : M unit :=
  new_entities ← for_in (set_iter external_ids) []
    (λ external_id new_entities,
       new_entity ← new_entity_for external_id;
       let new_entities := new_entities ++ [new_entity] in
       managed_add external_id;;
       mret new_entities);
  perform (add_entities new_entities true).

Definition _update_entities (external_ids : gset string) : M unit :=
  for_in (set_iter external_ids) tt
    (λ external_id _,
       perform (dispatcher_send (SIGNAL_UPDATE_ENTITY external_id))).

Definition _remove_entities (external_ids : gset string) : M unit :=
  for_in (set_iter external_ids) tt
    (λ external_id _,
       managed_remove external_id;;
       perform (dispatcher_send (SIGNAL_DELETE_ENTITY external_id))).

(** [fetched] is the pair returned by [self._feed.update()]. *)
Definition _update (fetched : string * list FeedEntry.t) : M unit :=
  let '(status, feed_entries) := fetched in
  if decide (status = UPDATE_OK) then
    set_feed_entries (entries_by_id feed_entries);;
    self ← get;
    let feed_external_ids :=
      dom (NswRuralFireServiceFeedManager.feed_entries self) in
    let remove_external_ids :=
      _managed_external_ids self ∖ feed_external_ids in
    _remove_entities remove_external_ids;;
    self ← get;
    let update_external_ids :=
      _managed_external_ids self ∩ feed_external_ids in
    _update_entities update_external_ids;;
    self ← get;
    let create_external_ids :=
      feed_external_ids ∖ _managed_external_ids self in
    _generate_new_entities create_external_ids
  else if decide (status = UPDATE_OK_NO_DATA) then
    mret tt
  else
    self ← get;
    _remove_entities (_managed_external_ids self).

(** The cycles of a manager's life.  [startup] runs [_update] once and
    [_init_regular_updates] hands [lambda now: self._update()] to
    [track_time_interval], which runs it at every interval; [fetches]
    lists what [self._feed.update()] returns in these calls, in order. *)
Definition updates (fetches : list (string * list FeedEntry.t)) : M unit :=
  for_in fetches tt (λ fetched _, _update fetched).
End methods.
End NswRuralFireServiceFeedManager.

Import NswRuralFireServiceFeedManager.

(** ** Vocabulary of the specification *)

(** The three identifier sets of a cycle, from the identifiers tracked
    when the cycle starts and the identifiers fetched. *)
Definition to_remove (tracked fetched : gset string) : gset string :=
  tracked ∖ fetched.
Definition to_update (tracked fetched : gset string) : gset string :=
  tracked ∩ fetched.
Definition to_create (tracked fetched : gset string) : gset string :=
  fetched ∖ tracked.

(** Identifiers of a fetched collection. *)
Definition fetched_ids (feed_entries : list FeedEntry.t) : gset string :=
  list_to_set (FeedEntry.external_id <$> feed_entries).

(** The manager with another set of managed identifiers. *)
Definition with_managed (self : t) (ids : gset string) : t :=
  {| feed_entries := feed_entries self; _managed_external_ids := ids |}.

(** The calls of an outcome, without the snapshots. *)
Definition calls {A} (o : outcome A) : list call := (trace o).*1.

(** Signals handed to [dispatcher_send], in order. *)
Definition signals (cs : list call) : list string :=
  omap (λ c, match c with dispatcher_send s => Some s | _ => None end) cs.

(** Identifiers for which an entity was constructed, in order. *)
Definition constructed (cs : list call) : list string :=
  omap (λ c, match c with new_location_event i => Some i | _ => None end)
       cs.

(** Arguments of the calls to [add_entities], in order. *)
Definition registrations (cs : list call)
    : list (list NswRuralFireServiceLocationEvent.t * bool) :=
  omap (λ c, match c with add_entities l b => Some (l, b) | _ => None end)
       cs.

(** Observations of a removal loop over [ids] started in state [self]. *)
Fixpoint removal_trace (ids : list string) (self : t) : list observation :=
  match ids with
  | [] => []
  | i :: ids' =>
      let self' :=
        with_managed self (_managed_external_ids self ∖ {[i]}) in
      (dispatcher_send (SIGNAL_DELETE_ENTITY i), self')
        :: removal_trace ids' self'
  end.

(** Observations of an update loop. *)
Definition update_trace (ids : list string) (self : t) : list observation :=
  (λ i, (dispatcher_send (SIGNAL_UPDATE_ENTITY i), self)) <$> ids.

(** Observations of the constructor calls of a creation loop. *)
Fixpoint creation_trace (ids : list string) (self : t) : list observation :=
  match ids with
  | [] => []
  | i :: ids' =>
      (new_location_event i, self)
        :: creation_trace ids'
             (with_managed self (_managed_external_ids self ∪ {[i]}))
  end.

(** Number of occurrences of [x] in [l]. *)
Definition count_of (x : string) (l : list string) : nat :=
  length (filter (λ y, y = x) l).

(** 1 when [x] is in [X], 0 otherwise. *)
Definition indicator (x : string) (X : gset string) : nat :=
  if decide (x ∈ X) then 1 else 0.

(** Every managed identifier has an entry. *)
Definition managed_have_entries (self : t) : Prop :=
  _managed_external_ids self ⊆ dom (feed_entries self).

(** The invariant of the data model. *)
Definition tracked_is_current (self : t) : Prop :=
  _managed_external_ids self = dom (feed_entries self).

(** Sample data. *)
Definition sample_entry (external_id : string) : FeedEntry.t :=
  {| FeedEntry.external_id := external_id;
     FeedEntry.title := Some "Bush Fire";
     FeedEntry.distance_to_home := None;
     FeedEntry.coordinates := (PrimFloat.zero, PrimFloat.one);
     FeedEntry.attribution := None;
     FeedEntry.category := Some "Advice";
     FeedEntry.publication_date := None;
     FeedEntry.location := None;
     FeedEntry.council_area := None;
     FeedEntry.status := Some "Under control";
     FeedEntry.type := None;
     FeedEntry.fire := Some true;
     FeedEntry.size := None;
     FeedEntry.responsible_agency := None |}.

(** A manager tracking exactly the given entries. *)
Definition tracking (feed_entries : list FeedEntry.t) : t :=
  {| feed_entries := entries_by_id feed_entries;
     _managed_external_ids := fetched_ids feed_entries |}.

(** ** Iteration order *)

Section iteration.
Context `{SetIteration}.

Lemma elem_of_set_iter (X : gset string) i : i ∈ set_iter X ↔ i ∈ X.
Proof. by rewrite set_iter_perm, elem_of_elements. Qed.

Lemma NoDup_set_iter (X : gset string) : NoDup (set_iter X).
Proof. rewrite set_iter_perm. apply NoDup_elements. Qed.

Lemma length_set_iter (X : gset string) : length (set_iter X) = size X.
Proof. by rewrite set_iter_perm. Qed.

Lemma list_to_set_set_iter (X : gset string) :
  list_to_set (set_iter X) = X.
Proof.
  apply set_eq. intros i. by rewrite elem_of_list_to_set, elem_of_set_iter.
Qed.
End iteration.

(** ** Signal names *)

Lemma SIGNAL_DELETE_ENTITY_inj i j :
  SIGNAL_DELETE_ENTITY i = SIGNAL_DELETE_ENTITY j → i = j.
Proof. apply (inj (String.app _)). Qed.

Lemma SIGNAL_UPDATE_ENTITY_inj i j :
  SIGNAL_UPDATE_ENTITY i = SIGNAL_UPDATE_ENTITY j → i = j.
Proof. apply (inj (String.app _)). Qed.

Lemma SIGNAL_DELETE_UPDATE_ne i j :
  SIGNAL_DELETE_ENTITY i ≠ SIGNAL_UPDATE_ENTITY j.
Proof. unfold SIGNAL_DELETE_ENTITY, SIGNAL_UPDATE_ENTITY. cbn. intros [=]. Qed.

(** ** Runs of the manager's methods *)

Lemma with_managed_id self :
  with_managed self (_managed_external_ids self) = self.
Proof. by destruct self. Qed.

Ltac unfold_M :=
  unfold new_entity_for, managed_remove, managed_add, set_feed_entries,
    mbind, M_bind, mret, M_ret, get, put, raise, perform; simpl.

Lemma remove_loop_run ids self :
  NoDup ids →
  (∀ i, i ∈ ids → i ∈ _managed_external_ids self) →
  for_in ids tt
    (λ external_id _,
       managed_remove external_id;;
       perform (dispatcher_send (SIGNAL_DELETE_ENTITY external_id))) self
  = {| result := inr tt;
       final := with_managed self
                  (_managed_external_ids self ∖ list_to_set ids);
       trace := removal_trace ids self |}.
Proof.
  intros Hnd. revert self. unfold_M.
  induction Hnd as [|i ids Hi Hnd IH]; intros self Hin.
  - simpl. unfold_M. f_equal.
    rewrite difference_empty_L. by rewrite with_managed_id.
  - simpl. unfold_M. rewrite decide_True by (apply Hin; left). simpl.
    rewrite IH.
    + simpl. f_equal. unfold with_managed; simpl. f_equal.
      by rewrite difference_difference_l_L.
    + intros j Hj. simpl. apply elem_of_difference. split.
      * apply Hin. by right.
      * intros ->%elem_of_singleton. done.
Qed.

Lemma update_loop_run ids self :
  for_in ids tt
    (λ external_id _,
       perform (dispatcher_send (SIGNAL_UPDATE_ENTITY external_id))) self
  = {| result := inr tt; final := self; trace := update_trace ids self |}.
Proof.
  unfold_M. induction ids as [|i ids IH]; [done|].
  simpl. unfold_M. rewrite IH. done.
Qed.

Lemma create_loop_run ids acc self :
  for_in ids acc
    (λ external_id new_entities,
       new_entity ← new_entity_for external_id;
       let new_entities := new_entities ++ [new_entity] in
       managed_add external_id;;
       mret new_entities) self
  = {| result :=
         inr (acc ++ (NswRuralFireServiceLocationEvent.__init__ <$> ids));
       final := with_managed self
                  (_managed_external_ids self ∪ list_to_set ids);
       trace := creation_trace ids self |}.
Proof.
  revert acc self. unfold_M.
  induction ids as [|i ids IH]; intros acc self.
  - simpl. unfold_M. f_equal.
    + by rewrite app_nil_r.
    + rewrite union_empty_r_L. by rewrite with_managed_id.
  - simpl. unfold_M. rewrite IH. simpl. f_equal.
    + by rewrite <- app_assoc.
    + unfold with_managed; simpl. f_equal. by rewrite (assoc_L (∪)).
Qed.

Section runs.
Context `{SetIteration}.

Lemma _remove_entities_run (external_ids : gset string) self :
  external_ids ⊆ _managed_external_ids self →
  _remove_entities external_ids self
  = {| result := inr tt;
       final := with_managed self
                  (_managed_external_ids self ∖ external_ids);
       trace := removal_trace (set_iter external_ids) self |}.
Proof.
  intros Hsub. unfold _remove_entities. rewrite remove_loop_run.
  - by rewrite list_to_set_set_iter.
  - apply NoDup_set_iter.
  - intros i Hi%elem_of_set_iter. by apply Hsub.
Qed.

Lemma _update_entities_run (external_ids : gset string) self :
  _update_entities external_ids self
  = {| result := inr tt; final := self;
       trace := update_trace (set_iter external_ids) self |}.
Proof. apply update_loop_run. Qed.

Lemma _generate_new_entities_run (external_ids : gset string) self :
  _generate_new_entities external_ids self
  = let self' :=
      with_managed self (_managed_external_ids self ∪ external_ids) in
    {| result := inr tt; final := self';
       trace :=
         creation_trace (set_iter external_ids) self
         ++ [(add_entities
                (NswRuralFireServiceLocationEvent.__init__
                   <$> set_iter external_ids) true, self')] |}.
Proof.
  unfold _generate_new_entities.
  unfold mbind at 1. unfold M_bind. rewrite create_loop_run. simpl.
  by rewrite list_to_set_set_iter.
Qed.
End runs.

(** ** The dictionary built from a fetched collection *)

Lemma dom_entries_by_id_foldl (l : list FeedEntry.t)
    (d : gmap string FeedEntry.t) :
  dom (foldl (λ d entry, <[FeedEntry.external_id entry := entry]> d) d l)
  = dom d ∪ fetched_ids l.
Proof.
  revert d. induction l as [|e l IH]; intros d; unfold fetched_ids; simpl.
  - by rewrite union_empty_r_L.
  - rewrite IH, dom_insert_L. unfold fetched_ids. set_solver.
Qed.

Lemma dom_entries_by_id (l : list FeedEntry.t) :
  dom (entries_by_id l) = fetched_ids l.
Proof.
  unfold entries_by_id. rewrite dom_entries_by_id_foldl, dom_empty_L.
  by rewrite union_empty_l_L.
Qed.

Lemma entries_by_id_snoc (l : list FeedEntry.t) e :
  entries_by_id (l ++ [e])
  = <[FeedEntry.external_id e := e]> (entries_by_id l).
Proof. unfold entries_by_id. by rewrite foldl_app. Qed.

(** A key is bound to the last fetched entry that carries it. *)
Lemma entries_by_id_lookup (l : list FeedEntry.t) (i : string) :
  entries_by_id l !! i
  = last (filter (λ e, FeedEntry.external_id e = i) l).
Proof.
  induction l as [|e l IH] using rev_ind; [done|].
  rewrite entries_by_id_snoc, filter_app, lookup_insert.
  rewrite filter_cons, filter_nil. case_decide as Hi.
  - by rewrite last_snoc.
  - by rewrite app_nil_r.
Qed.

(** ** Set identities used by a successful cycle *)

Lemma tracked_after_removal (T F : gset string) : T ∖ (T ∖ F) = T ∩ F.
Proof.
  apply set_eq. intros i. rewrite elem_of_difference, elem_of_difference,
    elem_of_intersection.
  destruct (decide (i ∈ F)); naive_solver.
Qed.

Lemma update_ids_after_removal (T F : gset string) : T ∩ F ∩ F = T ∩ F.
Proof. set_solver. Qed.

Lemma create_ids_after_removal (T F : gset string) : F ∖ (T ∩ F) = F ∖ T.
Proof. set_solver. Qed.

Lemma tracked_after_creation (T F : gset string) : T ∩ F ∪ F ∖ T = F.
Proof.
  apply set_eq. intros i. rewrite elem_of_union, elem_of_difference,
    elem_of_intersection.
  destruct (decide (i ∈ T)); naive_solver.
Qed.

(** ** Runs of a whole cycle *)

Section cycle.
Context `{SetIteration}.

(** Expected outcome of a cycle whose fetch has status [UPDATE_OK]. *)
Lemma _update_ok_run (entries : list FeedEntry.t) self :
  _update (UPDATE_OK, entries) self
  = let T := _managed_external_ids self in
    let F := fetched_ids entries in
    let s1 := {| feed_entries := entries_by_id entries;
                 _managed_external_ids := T |} in
    let s2 := with_managed s1 (T ∩ F) in
    let s3 := with_managed s1 F in
    {| result := inr tt; final := s3;
       trace :=
         removal_trace (set_iter (to_remove T F)) s1
         ++ update_trace (set_iter (to_update T F)) s2
         ++ creation_trace (set_iter (to_create T F)) s2
         ++ [(add_entities
                (NswRuralFireServiceLocationEvent.__init__
                   <$> set_iter (to_create T F)) true, s3)] |}.
Proof.
  unfold _update. rewrite decide_True by done.
  unfold to_remove, to_update, to_create.
  unfold set_feed_entries, get, put, mbind, M_bind.
  cbn [result final trace feed_entries _managed_external_ids].
  rewrite dom_entries_by_id.
  rewrite _remove_entities_run by (cbn; set_solver).
  cbn [result final trace with_managed feed_entries _managed_external_ids].
  rewrite _update_entities_run.
  cbn [result final trace with_managed feed_entries _managed_external_ids].
  rewrite _generate_new_entities_run.
  cbn [result final trace with_managed feed_entries _managed_external_ids].
  rewrite !tracked_after_removal, update_ids_after_removal,
    create_ids_after_removal, tracked_after_creation.
  cbn [app]. by rewrite <- ?app_assoc.
Qed.

(** Outcome of a cycle whose fetch has status [UPDATE_OK_NO_DATA]. *)
Lemma _update_no_data_run (entries : list FeedEntry.t) self :
  _update (UPDATE_OK_NO_DATA, entries) self
  = {| result := inr tt; final := self; trace := [] |}.
Proof. done. Qed.

(** Outcome of a cycle whose fetch has any other status. *)
Lemma _update_failure_run status (entries : list FeedEntry.t) self :
  status ≠ UPDATE_OK → status ≠ UPDATE_OK_NO_DATA →
  _update (status, entries) self
  = {| result := inr tt; final := with_managed self ∅;
       trace := removal_trace (set_iter (_managed_external_ids self))
                  self |}.
Proof.
  intros Hok Hnd. unfold _update. rewrite !decide_False by done.
  unfold mbind, M_bind, get. cbn [result final trace].
  rewrite _remove_entities_run by done.
  by rewrite difference_diag_L.
Qed.
End cycle.

Lemma dispatcher_send_inj s1 s2 :
  dispatcher_send s1 = dispatcher_send s2 → s1 = s2.
Proof.
  intros Heq.
  exact (f_equal (λ c, match c with dispatcher_send s => s | _ => s1 end)
           Heq).
Qed.

(** ** Structure of the traces *)

Lemma removal_trace_calls ids self :
  (removal_trace ids self).*1
  = (λ i, dispatcher_send (SIGNAL_DELETE_ENTITY i)) <$> ids.
Proof.
  revert self. induction ids as [|i ids IH]; intros self; [done|].
  simpl. by rewrite IH.
Qed.

Lemma update_trace_calls ids self :
  (update_trace ids self).*1
  = (λ i, dispatcher_send (SIGNAL_UPDATE_ENTITY i)) <$> ids.
Proof. unfold update_trace. rewrite <- list_fmap_compose. done. Qed.

Lemma creation_trace_calls ids self :
  (creation_trace ids self).*1 = new_location_event <$> ids.
Proof.
  revert self. induction ids as [|i ids IH]; intros self; [done|].
  simpl. by rewrite IH.
Qed.

Lemma removal_trace_lookup ids self k c snap :
  removal_trace ids self !! k = Some (c, snap) →
  ∃ i, ids !! k = Some i
       ∧ c = dispatcher_send (SIGNAL_DELETE_ENTITY i)
       ∧ snap = with_managed self
                  (_managed_external_ids self
                     ∖ list_to_set (take (S k) ids)).
Proof.
  revert self k. induction ids as [|i ids IH]; intros self k; [done|].
  destruct k as [|k]; simpl.
  - intros [= <- <-]. exists i. split_and!; [done..|].
    unfold with_managed. f_equal. by rewrite union_empty_r_L.
  - intros (j & Hj & -> & ->)%IH. exists j. split_and!; [done..|].
    unfold with_managed. simpl. f_equal.
    by rewrite difference_difference_l_L.
Qed.

Lemma removal_trace_untracked ids self k i snap :
  removal_trace ids self !! k
    = Some (dispatcher_send (SIGNAL_DELETE_ENTITY i), snap) →
  ids !! k = Some i
  ∧ ∀ j c' snap', k ≤ j →
      removal_trace ids self !! j = Some (c', snap') →
      i ∉ _managed_external_ids snap'.
Proof.
  intros (i' & Hk & Hc & _)%removal_trace_lookup.
  apply dispatcher_send_inj, SIGNAL_DELETE_ENTITY_inj in Hc as ->.
  split; [done|]. intros j c' snap' Hle (i'' & Hj & _ & ->)%removal_trace_lookup.
  simpl. rewrite elem_of_difference, elem_of_list_to_set.
  intros [_ Hnot]. apply Hnot. apply list_elem_of_lookup. exists k.
  rewrite lookup_take_lt by lia. done.
Qed.

Lemma update_trace_Forall ids self :
  Forall (λ o : observation,
            (∃ i, o.1 = dispatcher_send (SIGNAL_UPDATE_ENTITY i)) ∧ o.2 = self)
         (update_trace ids self).
Proof.
  unfold update_trace. apply Forall_fmap, Forall_forall. intros i _.
  simpl. eauto.
Qed.

Lemma creation_trace_Forall ids self :
  Forall (λ o : observation,
            (∃ i, o.1 = new_location_event i)
            ∧ feed_entries o.2 = feed_entries self
            ∧ _managed_external_ids self ⊆ _managed_external_ids o.2
            ∧ _managed_external_ids o.2
                ⊆ _managed_external_ids self ∪ list_to_set ids)
         (creation_trace ids self).
Proof.
  revert self. induction ids as [|i ids IH]; intros self; [constructor|].
  simpl. constructor.
  - simpl. split_and!; [eauto|done|done|set_solver].
  - eapply Forall_impl; [apply IH|]. simpl.
    intros o (Hc & Hf & Hlo & Hhi). split_and!; [done|done|set_solver..].
Qed.

(** The k-th constructor call sees as managed, besides the identifiers
    managed before the loop, those of the earlier iterations only. *)
Lemma creation_trace_lookup ids self k c snap :
  creation_trace ids self !! k = Some (c, snap) →
  ∃ i, ids !! k = Some i
       ∧ c = new_location_event i
       ∧ snap = with_managed self
                  (_managed_external_ids self ∪ list_to_set (take k ids)).
Proof.
  revert self k. induction ids as [|i ids IH]; intros self k; [done|].
  destruct k as [|k]; simpl.
  - intros [= <- <-]. exists i. split_and!; [done..|].
    rewrite union_empty_r_L. by rewrite with_managed_id.
  - intros (j & Hj & -> & ->)%IH. exists j. split_and!; [done..|].
    unfold with_managed. simpl. f_equal. by rewrite (assoc_L (∪)).
Qed.

(** ** Calls by kind *)

Lemma signals_app cs1 cs2 : signals (cs1 ++ cs2) = signals cs1 ++ signals cs2.
Proof. apply omap_app. Qed.

Lemma constructed_app cs1 cs2 :
  constructed (cs1 ++ cs2) = constructed cs1 ++ constructed cs2.
Proof. apply omap_app. Qed.

Lemma registrations_app cs1 cs2 :
  registrations (cs1 ++ cs2) = registrations cs1 ++ registrations cs2.
Proof. apply omap_app. Qed.

Lemma signals_dispatcher_send {A} (f : A → string) (l : list A) :
  signals ((λ i, dispatcher_send (f i)) <$> l) = f <$> l.
Proof. induction l as [|i l IH]; [done|]. simpl. by f_equal. Qed.

Lemma constructed_dispatcher_send {A} (f : A → string) (l : list A) :
  constructed ((λ i, dispatcher_send (f i)) <$> l) = [].
Proof. induction l as [|i l IH]; [done|]. done. Qed.

Lemma registrations_dispatcher_send {A} (f : A → string) (l : list A) :
  registrations ((λ i, dispatcher_send (f i)) <$> l) = [].
Proof. induction l as [|i l IH]; [done|]. done. Qed.

Lemma signals_new_location_event (l : list string) :
  signals (new_location_event <$> l) = [].
Proof. induction l as [|i l IH]; [done|]. done. Qed.

Lemma constructed_new_location_event (l : list string) :
  constructed (new_location_event <$> l) = l.
Proof. induction l as [|i l IH]; [done|]. simpl. by f_equal. Qed.

Lemma registrations_new_location_event (l : list string) :
  registrations (new_location_event <$> l) = [].
Proof. induction l as [|i l IH]; [done|]. done. Qed.

Section iteration_facts.
Context `{SetIteration}.

Lemma set_iter_empty : set_iter (∅ : gset string) = [].
Proof.
  apply Permutation_nil_r. rewrite set_iter_perm. by rewrite elements_empty.
Qed.

Lemma NoDup_delete_signals (X : gset string) :
  NoDup (SIGNAL_DELETE_ENTITY <$> set_iter X).
Proof.
  apply NoDup_fmap_2; [|apply NoDup_set_iter].
  intros i j. apply SIGNAL_DELETE_ENTITY_inj.
Qed.

Lemma NoDup_update_signals (X : gset string) :
  NoDup (SIGNAL_UPDATE_ENTITY <$> set_iter X).
Proof.
  apply NoDup_fmap_2; [|apply NoDup_set_iter].
  intros i j. apply SIGNAL_UPDATE_ENTITY_inj.
Qed.
End iteration_facts.

(** ** Failure cycles *)

(** C1, as stated, fails: after a failed fetch the manager still holds
    the entries of the last successful fetch. *)
Lemma failure_keeps_feed_entries :
  let self := tracking [sample_entry "A"] in
  let o := @_update elements_iteration (UPDATE_ERROR, []) self in
  UPDATE_ERROR ≠ UPDATE_OK
  ∧ UPDATE_ERROR ≠ UPDATE_OK_NO_DATA
  ∧ _managed_external_ids (final o) = ∅
  ∧ feed_entries (final o) !! "A" = Some (sample_entry "A")
  ∧ feed_entries (final o) ≠ ∅.
Proof.
  cbv zeta. rewrite _update_failure_run by done.
  split_and!; [done|done|done|done|].
  intros Hempty. apply (f_equal (λ d, d !! "A")) in Hempty.
  by rewrite lookup_empty in Hempty.
Qed.

(** C1 (amended): a cycle whose fetch status is neither [UPDATE_OK] nor
    [UPDATE_OK_NO_DATA], started with N managed identifiers, raises no
    exception, makes N calls, all of them [dispatcher_send] of a delete
    signal, one for each managed identifier, leaves no identifier managed
    and leaves [feed_entries] as it was before the cycle. *)
Theorem failure_cycle_sweeps_managed_ids `{SetIteration} status
    (entries : list FeedEntry.t) self :
  status ≠ UPDATE_OK → status ≠ UPDATE_OK_NO_DATA →
  let o := _update (status, entries) self in
  result o = inr tt
  ∧ calls o = dispatcher_send <$> signals (calls o)
  ∧ signals (calls o)
      ≡ₚ SIGNAL_DELETE_ENTITY <$> elements (_managed_external_ids self)
  ∧ NoDup (signals (calls o))
  ∧ length (calls o) = size (_managed_external_ids self)
  ∧ _managed_external_ids (final o) = ∅
  ∧ feed_entries (final o) = feed_entries self.
Proof.
  intros Hok Hnd. cbv zeta. unfold calls.
  rewrite _update_failure_run by done. cbn [result final trace].
  rewrite removal_trace_calls, signals_dispatcher_send.
  split_and!; try done.
  - by rewrite <- list_fmap_compose.
  - by rewrite set_iter_perm.
  - apply NoDup_delete_signals.
  - by rewrite length_fmap, length_set_iter.
Qed.

Lemma failure_cycle_sweeps_managed_ids_witness :
  let o := @_update elements_iteration (UPDATE_ERROR, [])
             (tracking [sample_entry "A"; sample_entry "B"]) in
  length (calls o) = 2 ∧ _managed_external_ids (final o) = ∅.
Proof.
  pose proof (failure_cycle_sweeps_managed_ids (H := elements_iteration)
                UPDATE_ERROR [] (tracking [sample_entry "A"; sample_entry "B"])
                ltac:(done) ltac:(done)) as (_ & _ & _ & _ & Hlen & Hm & _).
  split; [|exact Hm]. rewrite Hlen. reflexivity.
Defined.

(** ** The invariant of the data model *)

(** C2, as stated, fails: a failed fetch empties the managed set and
    keeps the entries. *)
Lemma failure_breaks_tracked_is_current :
  let self := tracking [sample_entry "A"] in
  tracked_is_current self
  ∧ ¬ tracked_is_current
        (final (@_update elements_iteration (UPDATE_ERROR, []) self)).
Proof.
  cbv zeta. split.
  - unfold tracked_is_current, tracking. simpl. by rewrite dom_entries_by_id.
  - rewrite _update_failure_run by done. unfold tracked_is_current. simpl.
    rewrite dom_entries_by_id. intros Hempty.
    assert ("A" ∈ fetched_ids [sample_entry "A"]) as Hin
      by (unfold fetched_ids; simpl; set_solver).
    rewrite <- Hempty in Hin. by apply not_elem_of_empty in Hin.
Qed.

(** C2 (amended): from a state in which the managed identifiers are the
    keys of [feed_entries], a cycle whose fetch status is [UPDATE_OK] or
    [UPDATE_OK_NO_DATA], or any cycle started with no managed identifier,
    ends in a state in which the managed identifiers are again the keys
    of [feed_entries]. *)
Theorem cycle_preserves_tracked_is_current `{SetIteration} status
    (entries : list FeedEntry.t) self :
  tracked_is_current self →
  status = UPDATE_OK ∨ status = UPDATE_OK_NO_DATA
    ∨ _managed_external_ids self = ∅ →
  tracked_is_current (final (_update (status, entries) self)).
Proof.
  intros Hinv Hcase.
  destruct (decide (status = UPDATE_OK)) as [->|Hok].
  { rewrite _update_ok_run. unfold tracked_is_current. simpl.
    by rewrite dom_entries_by_id. }
  destruct (decide (status = UPDATE_OK_NO_DATA)) as [->|Hnd].
  { by rewrite _update_no_data_run. }
  destruct Hcase as [?|[?|Hempty]]; [done..|].
  rewrite _update_failure_run by done.
  unfold tracked_is_current in *. simpl. by rewrite <- Hinv.
Qed.

Lemma cycle_preserves_tracked_is_current_witness :
  tracked_is_current
    (final (@_update elements_iteration
              (UPDATE_OK, [sample_entry "B"; sample_entry "C"])
              (tracking [sample_entry "A"; sample_entry "B"]))).
Proof.
  apply (cycle_preserves_tracked_is_current (H := elements_iteration)).
  - unfold tracked_is_current, tracking. simpl. by rewrite dom_entries_by_id.
  - left. reflexivity.
Defined.

(** ** Cycles without data *)

(** C3: a cycle whose fetch status is [UPDATE_OK_NO_DATA] raises no
    exception, makes no call at all, and leaves both [feed_entries] and
    the managed identifiers as they were. *)
Theorem no_data_cycle_is_noop `{SetIteration}
    (entries : list FeedEntry.t) self :
  let o := _update (UPDATE_OK_NO_DATA, entries) self in
  result o = inr tt
  ∧ trace o = []
  ∧ final o = self
  ∧ feed_entries (final o) = feed_entries self
  ∧ _managed_external_ids (final o) = _managed_external_ids self.
Proof. cbv zeta. rewrite _update_no_data_run. done. Qed.


(** ** Successful cycles *)

Section ok_cycle.
Context `{SetIteration}.

Lemma calls_update_ok (entries : list FeedEntry.t) self :
  let T := _managed_external_ids self in
  let F := fetched_ids entries in
  calls (_update (UPDATE_OK, entries) self)
  = ((λ i, dispatcher_send (SIGNAL_DELETE_ENTITY i))
       <$> set_iter (to_remove T F))
    ++ ((λ i, dispatcher_send (SIGNAL_UPDATE_ENTITY i))
          <$> set_iter (to_update T F))
    ++ (new_location_event <$> set_iter (to_create T F))
    ++ [add_entities
          (NswRuralFireServiceLocationEvent.__init__
             <$> set_iter (to_create T F)) true].
Proof.
  cbv zeta. unfold calls. rewrite _update_ok_run. cbn [trace].
  rewrite !fmap_app, removal_trace_calls, update_trace_calls,
    creation_trace_calls. done.
Qed.

Lemma signals_update_ok (entries : list FeedEntry.t) self :
  let T := _managed_external_ids self in
  let F := fetched_ids entries in
  signals (calls (_update (UPDATE_OK, entries) self))
  = (SIGNAL_DELETE_ENTITY <$> set_iter (to_remove T F))
    ++ (SIGNAL_UPDATE_ENTITY <$> set_iter (to_update T F)).
Proof.
  cbv zeta. rewrite calls_update_ok, !signals_app.
  rewrite !signals_dispatcher_send, signals_new_location_event.
  simpl. by rewrite app_nil_r.
Qed.

Lemma constructed_update_ok (entries : list FeedEntry.t) self :
  let T := _managed_external_ids self in
  let F := fetched_ids entries in
  constructed (calls (_update (UPDATE_OK, entries) self))
  = set_iter (to_create T F).
Proof.
  cbv zeta. rewrite calls_update_ok, !constructed_app.
  rewrite !constructed_dispatcher_send, constructed_new_location_event.
  simpl. by rewrite app_nil_r.
Qed.

Lemma registrations_update_ok (entries : list FeedEntry.t) self :
  let T := _managed_external_ids self in
  let F := fetched_ids entries in
  registrations (calls (_update (UPDATE_OK, entries) self))
  = [(NswRuralFireServiceLocationEvent.__init__
        <$> set_iter (to_create T F), true)].
Proof.
  cbv zeta. rewrite calls_update_ok, !registrations_app.
  rewrite !registrations_dispatcher_send, registrations_new_location_event.
  done.
Qed.

End ok_cycle.

(** C4: a cycle whose fetch status is [UPDATE_OK] replaces [feed_entries]
    by the dictionary of the fetched entries keyed by [external_id] (a
    key is bound to the last entry carrying it, whatever the dictionary
    held before); the delete signals go to the identifiers of [to_remove],
    the update signals to those of [to_update] and the entities are
    constructed for those of [to_create], three pairwise disjoint sets of
    which the last two make up the fetched identifiers; and the managed
    identifiers end up being exactly the fetched ones. *)
Theorem ok_cycle_partitions_ids `{SetIteration}
    (entries : list FeedEntry.t) self :
  let T := _managed_external_ids self in
  let F := fetched_ids entries in
  let o := _update (UPDATE_OK, entries) self in
  result o = inr tt
  ∧ feed_entries (final o) = entries_by_id entries
  ∧ (∀ i, feed_entries (final o) !! i
          = last (filter (λ e, FeedEntry.external_id e = i) entries))
  ∧ dom (feed_entries (final o)) = F
  ∧ signals (calls o)
    = (SIGNAL_DELETE_ENTITY <$> set_iter (to_remove T F))
      ++ (SIGNAL_UPDATE_ENTITY <$> set_iter (to_update T F))
  ∧ constructed (calls o) = set_iter (to_create T F)
  ∧ to_remove T F ## to_update T F
  ∧ to_remove T F ## to_create T F
  ∧ to_update T F ## to_create T F
  ∧ to_update T F ∪ to_create T F = F
  ∧ _managed_external_ids (final o) = F.
Proof.
  cbv zeta. rewrite signals_update_ok, constructed_update_ok.
  rewrite _update_ok_run. cbn [result final feed_entries with_managed
    _managed_external_ids].
  unfold to_remove, to_update, to_create.
  split_and!; try done.
  - apply entries_by_id_lookup.
  - apply dom_entries_by_id.
  - set_solver.
  - set_solver.
  - set_solver.
  - apply tracked_after_creation.
Qed.

(** C5: the trace of a cycle whose fetch status is [UPDATE_OK] is made of
    three consecutive parts: first the delete signals of [to_remove],
    then the update signals of [to_update], sent when every removal has
    been done and no identifier has been added yet, and last the
    construction of the entities of [to_create] followed by their
    registration through [add_entities]. *)
Theorem ok_cycle_removes_updates_creates `{SetIteration}
    (entries : list FeedEntry.t) self :
  let T := _managed_external_ids self in
  let F := fetched_ids entries in
  ∃ removal update creation : list observation,
    trace (_update (UPDATE_OK, entries) self)
      = removal ++ update ++ creation
    ∧ removal.*1 = (λ i, dispatcher_send (SIGNAL_DELETE_ENTITY i))
                     <$> set_iter (to_remove T F)
    ∧ update.*1 = (λ i, dispatcher_send (SIGNAL_UPDATE_ENTITY i))
                    <$> set_iter (to_update T F)
    ∧ creation.*1
      = (new_location_event <$> set_iter (to_create T F))
        ++ [add_entities
              (NswRuralFireServiceLocationEvent.__init__
                 <$> set_iter (to_create T F)) true]
    ∧ Forall (λ o : observation,
                _managed_external_ids o.2 = to_update T F) update
    ∧ Forall (λ o : observation,
                to_update T F ⊆ _managed_external_ids o.2
                ∧ _managed_external_ids o.2 ⊆ F) creation.
Proof.
  cbv zeta. rewrite _update_ok_run. cbn [trace].
  eexists _, _, _. split; [reflexivity|].
  rewrite removal_trace_calls, update_trace_calls, fmap_app,
    creation_trace_calls.
  split_and!; try done.
  - eapply Forall_impl; [apply update_trace_Forall|].
    by intros o [_ ->].
  - apply Forall_app. split.
    + eapply Forall_impl; [apply creation_trace_Forall|]. simpl.
      intros o (_ & _ & Hlo & Hhi). split; [done|].
      unfold to_update, to_create in *.
      rewrite list_to_set_set_iter, tracked_after_creation in Hhi. done.
    + apply Forall_singleton. simpl. unfold to_update. set_solver.
Qed.

(** ** Delete signals and the managed set *)

Section delete_signals.
Context `{SetIteration}.

(** What follows the removals in a successful cycle carries no delete
    signal and only sees fetched identifiers as managed. *)
Lemma ok_cycle_tail (entries : list FeedEntry.t) self :
  let T := _managed_external_ids self in
  let F := fetched_ids entries in
  let s1 := {| feed_entries := entries_by_id entries;
               _managed_external_ids := T |} in
  let s2 := with_managed s1 (T ∩ F) in
  let s3 := with_managed s1 F in
  Forall (λ o : observation,
            (∀ i, o.1 ≠ dispatcher_send (SIGNAL_DELETE_ENTITY i))
            ∧ _managed_external_ids o.2 ⊆ F)
    (update_trace (set_iter (to_update T F)) s2
     ++ creation_trace (set_iter (to_create T F)) s2
     ++ [(add_entities
            (NswRuralFireServiceLocationEvent.__init__
               <$> set_iter (to_create T F)) true, s3)]).
Proof.
  cbv zeta. rewrite !Forall_app. split_and!.
  - eapply Forall_impl; [apply update_trace_Forall|].
    intros o [[j Hj] ->]. split; [|simpl; set_solver].
    intros i. rewrite Hj.
    intros Heq%dispatcher_send_inj. symmetry in Heq.
    by apply SIGNAL_DELETE_UPDATE_ne in Heq.
  - eapply Forall_impl; [apply creation_trace_Forall|]. simpl.
    intros o ([j Hj] & _ & _ & Hhi). split.
    + intros i. by rewrite Hj.
    + unfold to_create in Hhi.
      rewrite list_to_set_set_iter, tracked_after_creation in Hhi. done.
  - apply Forall_singleton. simpl. split; [done|set_solver].
Qed.

End delete_signals.

(** C6: whenever a cycle, whatever the fetch status, sends the delete
    signal of an identifier, that identifier was managed when the cycle
    started and is no longer managed when the signal is sent, nor at any
    later call of the cycle, nor when the cycle ends. *)
Theorem delete_signal_follows_removal `{SetIteration} status
    (entries : list FeedEntry.t) self k i snap :
  let o := _update (status, entries) self in
  trace o !! k = Some (dispatcher_send (SIGNAL_DELETE_ENTITY i), snap) →
  i ∈ _managed_external_ids self
  ∧ (i ∉ _managed_external_ids snap)
  ∧ (∀ j c' snap', k ≤ j → trace o !! j = Some (c', snap') →
       i ∉ _managed_external_ids snap')
  ∧ (i ∉ _managed_external_ids (final o)).
Proof.
  cbv zeta. intros Hk.
  cut (i ∈ _managed_external_ids self
       ∧ (∀ j c' snap', k ≤ j →
            trace (_update (status, entries) self) !! j = Some (c', snap') →
            i ∉ _managed_external_ids snap')
       ∧ i ∉ _managed_external_ids (final (_update (status, entries) self))).
  { intros (Hin & Hlater & Hfinal). split_and!; try done.
    eapply (Hlater k); [lia|exact Hk]. }
  revert Hk. destruct (decide (status = UPDATE_OK)) as [->|Hok].
  - rewrite _update_ok_run. cbn [trace final with_managed
      _managed_external_ids].
    pose proof (ok_cycle_tail entries self) as Htail. cbv zeta in Htail.
    rewrite Forall_lookup in Htail.
    set (R := removal_trace _ _) in *. set (tail := _ ++ _) in *.
    intros Hk. apply lookup_app_Some in Hk as [Hk|[_ Hk]]; last first.
    { apply Htail in Hk as [Hne _]. by destruct (Hne i). }
    subst R. pose proof Hk as [Hi Hlater]%removal_trace_untracked.
    assert (i ∈ to_remove (_managed_external_ids self) (fetched_ids entries))
      as [Hin Hout]%elem_of_difference.
    { apply elem_of_set_iter, list_elem_of_lookup. eauto. }
    split_and!; [done| |done].
    intros j c' snap' Hle Hj.
    apply lookup_app_Some in Hj as [Hj|[_ Hj]].
    + by apply (Hlater j c' snap').
    + apply Htail in Hj as [_ Hsub]. simpl in Hsub. set_solver.
  - destruct (decide (status = UPDATE_OK_NO_DATA)) as [->|Hnd].
    { by rewrite _update_no_data_run. }
    rewrite _update_failure_run by done. cbn [trace final with_managed
      _managed_external_ids].
    intros [Hi Hlater]%removal_trace_untracked. split_and!.
    + apply (elem_of_set_iter (_managed_external_ids self)),
        list_elem_of_lookup. eauto.
    + done.
    + apply not_elem_of_empty.
Qed.

Lemma delete_signal_follows_removal_witness :
  let self := tracking [sample_entry "A"; sample_entry "B"] in
  let o := @_update elements_iteration (UPDATE_OK, [sample_entry "B"]) self in
  "A" ∈ _managed_external_ids self
  ∧ "A" ∉ _managed_external_ids (final o).
Proof.
  cbv zeta.
  pose proof (delete_signal_follows_removal (H := elements_iteration)
                UPDATE_OK [sample_entry "B"]
                (tracking [sample_entry "A"; sample_entry "B"])
                0 "A"
                {| feed_entries := entries_by_id [sample_entry "B"];
                   _managed_external_ids := {["A"; "B"]} ∖ {["A"]} |})
    as Hthm.
  cbv zeta in Hthm. destruct Hthm as (Hin & _ & _ & Hfinal).
  - vm_compute. reflexivity.
  - split; [exact Hin|exact Hfinal].
Defined.

(** ** Fetching the same identifiers twice *)

(** C7: when two consecutive cycles both have fetch status [UPDATE_OK]
    and fetch the same set S of identifiers, the second cycle raises no
    exception, sends exactly one update signal for each identifier of S
    and no other signal, in particular no delete signal, constructs no
    entity, registers an empty batch, and leaves the managed identifiers,
    which are S, unchanged. *)
Theorem repeated_fetch_only_updates `{SetIteration}
    (entries1 entries2 : list FeedEntry.t) self :
  fetched_ids entries2 = fetched_ids entries1 →
  let S := fetched_ids entries1 in
  let o1 := _update (UPDATE_OK, entries1) self in
  let o2 := _update (UPDATE_OK, entries2) (final o1) in
  result o2 = inr tt
  ∧ signals (calls o2) ≡ₚ SIGNAL_UPDATE_ENTITY <$> elements S
  ∧ NoDup (signals (calls o2))
  ∧ (∀ i, SIGNAL_DELETE_ENTITY i ∉ signals (calls o2))
  ∧ constructed (calls o2) = []
  ∧ registrations (calls o2) = [([], true)]
  ∧ _managed_external_ids (final o1) = S
  ∧ _managed_external_ids (final o2) = _managed_external_ids (final o1).
Proof.
  intros Hsame. cbv zeta.
  rewrite signals_update_ok, constructed_update_ok, registrations_update_ok.
  rewrite (_update_ok_run entries2), (_update_ok_run entries1).
  cbn [result final with_managed feed_entries _managed_external_ids].
  rewrite Hsame. unfold to_remove, to_update, to_create.
  rewrite difference_diag_L, intersection_idemp_L, set_iter_empty.
  cbn [fmap list_fmap app].
  split_and!; try done.
  - by rewrite set_iter_perm.
  - apply NoDup_update_signals.
  - intros i (j & Heq & _)%list_elem_of_fmap.
    by apply SIGNAL_DELETE_UPDATE_ne in Heq.
Qed.

Lemma repeated_fetch_only_updates_witness :
  let o1 := @_update elements_iteration
              (UPDATE_OK, [sample_entry "A"; sample_entry "B"])
              __init__ in
  let o2 := @_update elements_iteration
              (UPDATE_OK, [sample_entry "B"; sample_entry "A"])
              (final o1) in
  constructed (calls o2) = [] ∧ registrations (calls o2) = [([], true)].
Proof.
  pose proof (repeated_fetch_only_updates (H := elements_iteration)
                [sample_entry "A"; sample_entry "B"]
                [sample_entry "B"; sample_entry "A"] __init__) as Hthm.
  cbv zeta in Hthm. destruct Hthm as (_ & _ & _ & _ & Hc & Hr & _).
  - vm_compute. reflexivity.
  - split; [exact Hc|exact Hr].
Defined.

(** ** Creation and registration of entities *)

(** C8: a cycle whose fetch status is [UPDATE_OK] constructs exactly one
    entity for each identifier of [to_create] and for no other, ends with
    every identifier of [to_create] managed, and hands the freshly
    constructed entities, in the order of their construction, to
    [add_entities] in one call, the last call of the cycle. *)
Theorem ok_cycle_registers_one_batch `{SetIteration}
    (entries : list FeedEntry.t) self :
  let C := to_create (_managed_external_ids self) (fetched_ids entries) in
  let o := _update (UPDATE_OK, entries) self in
  constructed (calls o) ≡ₚ elements C
  ∧ NoDup (constructed (calls o))
  ∧ registrations (calls o)
    = [(NswRuralFireServiceLocationEvent.__init__ <$> constructed (calls o),
        true)]
  ∧ last (calls o)
    = Some (add_entities
              (NswRuralFireServiceLocationEvent.__init__
                 <$> constructed (calls o)) true)
  ∧ C ⊆ _managed_external_ids (final o).
Proof.
  cbv zeta. rewrite registrations_update_ok, constructed_update_ok.
  split_and!.
  - apply set_iter_perm.
  - apply NoDup_set_iter.
  - done.
  - rewrite calls_update_ok. by rewrite !app_assoc, last_snoc.
  - rewrite _update_ok_run. unfold to_create. simpl. set_solver.
Qed.

(** C10: in any cycle the calls to [add_entities] are: exactly one, with
    the entities built for [to_create] and with the flag [True], when the
    fetch status is [UPDATE_OK], that batch being empty when every
    fetched identifier is already managed; none for any other status. *)
Theorem add_entities_once_per_ok_cycle `{SetIteration} status
    (entries : list FeedEntry.t) self :
  let T := _managed_external_ids self in
  let F := fetched_ids entries in
  let o := _update (status, entries) self in
  registrations (calls o)
  = (if decide (status = UPDATE_OK)
     then [(NswRuralFireServiceLocationEvent.__init__
              <$> set_iter (to_create T F), true)]
     else [])
  ∧ (status = UPDATE_OK → F ⊆ T → registrations (calls o) = [([], true)]).
Proof.
  cbv zeta. destruct (decide (status = UPDATE_OK)) as [->|Hok].
  - rewrite registrations_update_ok. split; [done|].
    intros _ Hsub. unfold to_create.
    replace (fetched_ids entries ∖ _managed_external_ids self)
      with (∅ : gset string) by set_solver.
    by rewrite set_iter_empty.
  - split; [|done].
    destruct (decide (status = UPDATE_OK_NO_DATA)) as [->|Hnd].
    + by rewrite _update_no_data_run.
    + unfold calls. rewrite _update_failure_run by done. cbn [trace].
      rewrite removal_trace_calls. apply registrations_dispatcher_send.
Qed.

Lemma add_entities_once_per_ok_cycle_witness :
  registrations
    (calls (@_update elements_iteration
              (UPDATE_OK, [sample_entry "A"])
              (tracking [sample_entry "A"; sample_entry "B"])))
  = [([], true)].
Proof.
  apply (add_entities_once_per_ok_cycle (H := elements_iteration)).
  - reflexivity.
  - unfold tracking, fetched_ids. simpl. set_solver.
Defined.

(** ** Refresh of an entity *)

(** C9: when the manager's [feed_entries] has no entry under the external
    id of an entity, [async_update] leaves the entity exactly as it is. *)
Theorem async_update_absent_is_noop
    (self : NswRuralFireServiceLocationEvent.t) (feed_manager : t) :
  feed_entries feed_manager
    !! NswRuralFireServiceLocationEvent._external_id self = None →
  NswRuralFireServiceLocationEvent.async_update self
    (feed_entries feed_manager) = self.
Proof.
  intros Habsent. unfold NswRuralFireServiceLocationEvent.async_update.
  by rewrite Habsent.
Qed.

Lemma async_update_absent_is_noop_witness :
  let self :=
    NswRuralFireServiceLocationEvent._update_from_feed
      (NswRuralFireServiceLocationEvent.__init__ "A") (sample_entry "A") in
  NswRuralFireServiceLocationEvent.async_update self
    (feed_entries (tracking [sample_entry "B"])) = self.
Proof.
  cbv zeta. apply async_update_absent_is_noop. vm_compute. reflexivity.
Defined.

(** ** Scenarios *)

(** Managed {A, B}, fetched {B, C} with status [UPDATE_OK]: delete A,
    update B, one new entity for C, and {B, C} managed at the end. *)
Example scenario_remove_update_create :
  let o := @_update elements_iteration
             (UPDATE_OK, [sample_entry "B"; sample_entry "C"])
             (tracking [sample_entry "A"; sample_entry "B"]) in
  calls o
  = [dispatcher_send "nsw_rural_fire_service_feed_delete_A";
     dispatcher_send "nsw_rural_fire_service_feed_update_B";
     new_location_event "C";
     add_entities [NswRuralFireServiceLocationEvent.__init__ "C"] true]
  ∧ _managed_external_ids (final o) = {["B"; "C"]}.
Proof. cbv zeta. split; vm_compute; reflexivity. Qed.

(** Managed {A}, fetch failed: delete A, nothing managed at the end. *)
Example scenario_failure :
  let o := @_update elements_iteration (UPDATE_ERROR, [])
             (tracking [sample_entry "A"]) in
  calls o = [dispatcher_send "nsw_rural_fire_service_feed_delete_A"]
  ∧ _managed_external_ids (final o) = ∅.
Proof. cbv zeta. split; vm_compute; reflexivity. Qed.

(** Nothing managed, fetched {X} with status [UPDATE_OK]: one new entity
    for X, no signal, {X} managed at the end. *)
Example scenario_first_fetch :
  let o := @_update elements_iteration (UPDATE_OK, [sample_entry "X"])
             __init__ in
  calls o
  = [new_location_event "X";
     add_entities [NswRuralFireServiceLocationEvent.__init__ "X"] true]
  ∧ _managed_external_ids (final o) = {["X"]}.
Proof. cbv zeta. split; vm_compute; reflexivity. Qed.

(** ** Counting *)

Lemma count_of_app x l1 l2 :
  count_of x (l1 ++ l2) = count_of x l1 + count_of x l2.
Proof. unfold count_of. by rewrite filter_app, length_app. Qed.

Lemma count_of_not_elem_of x l : x ∉ l → count_of x l = 0.
Proof.
  unfold count_of. induction l as [|y l IH]; [done|].
  intros Hx. rewrite filter_cons. case_decide as Hy.
  - subst. destruct Hx. by left.
  - apply IH. intros Hin. apply Hx. by right.
Qed.

Lemma count_of_NoDup x l :
  NoDup l → count_of x l = if decide (x ∈ l) then 1 else 0.
Proof.
  intros Hnd. case_decide as Hx; [|by apply count_of_not_elem_of].
  induction Hnd as [|y l Hy Hnd IH]; [by apply elem_of_nil in Hx|].
  unfold count_of in *. rewrite filter_cons. case_decide as Hyx.
  - subst. simpl. f_equal. by apply count_of_not_elem_of.
  - apply IH. apply elem_of_cons in Hx as [->|Hx]; done.
Qed.

Lemma count_of_fmap_inj (f : string → string) x l :
  (∀ a b, f a = f b → a = b) →
  count_of (f x) (f <$> l) = count_of x l.
Proof.
  intros Hinj. unfold count_of. induction l as [|y l IH]; [done|].
  rewrite fmap_cons, !filter_cons.
  destruct (decide (y = x)) as [->|Hne].
  - rewrite decide_True by done. simpl. by f_equal.
  - rewrite decide_False by (intros Heq; by apply Hinj in Heq). done.
Qed.

Lemma count_of_delete_in_updates i l :
  count_of (SIGNAL_DELETE_ENTITY i) (SIGNAL_UPDATE_ENTITY <$> l) = 0.
Proof.
  apply count_of_not_elem_of. intros (j & Heq & _)%list_elem_of_fmap.
  by apply SIGNAL_DELETE_UPDATE_ne in Heq.
Qed.

Section counting.
Context `{SetIteration}.

Lemma count_of_set_iter i (X : gset string) :
  count_of i (set_iter X) = indicator i X.
Proof.
  rewrite count_of_NoDup by apply NoDup_set_iter. unfold indicator.
  destruct (decide (i ∈ X)) as [Hi|Hi].
  - by rewrite decide_True by by apply elem_of_set_iter.
  - by rewrite decide_False by by rewrite elem_of_set_iter.
Qed.

Lemma count_of_delete_signals i (X : gset string) :
  count_of (SIGNAL_DELETE_ENTITY i) (SIGNAL_DELETE_ENTITY <$> set_iter X)
  = indicator i X.
Proof.
  rewrite count_of_fmap_inj by apply SIGNAL_DELETE_ENTITY_inj.
  apply count_of_set_iter.
Qed.

(** ** Any cycle *)

Lemma _update_result status (entries : list FeedEntry.t) self :
  result (_update (status, entries) self) = inr tt.
Proof.
  destruct (decide (status = UPDATE_OK)) as [->|Hok].
  { by rewrite _update_ok_run. }
  destruct (decide (status = UPDATE_OK_NO_DATA)) as [->|Hnd].
  { by rewrite _update_no_data_run. }
  by rewrite _update_failure_run.
Qed.

(** Entities constructed and deleted in one cycle balance with the
    change of the managed set. *)
Lemma _update_balance status (entries : list FeedEntry.t) self i :
  let o := _update (status, entries) self in
  count_of i (constructed (calls o))
    + indicator i (_managed_external_ids self)
  = count_of (SIGNAL_DELETE_ENTITY i) (signals (calls o))
    + indicator i (_managed_external_ids (final o)).
Proof.
  cbv zeta. destruct (decide (status = UPDATE_OK)) as [->|Hok].
  { rewrite signals_update_ok, constructed_update_ok, _update_ok_run.
    cbn [final with_managed _managed_external_ids].
    rewrite count_of_app, count_of_delete_signals,
      count_of_delete_in_updates, count_of_set_iter.
    unfold indicator, to_remove, to_create.
    repeat case_decide; set_solver. }
  destruct (decide (status = UPDATE_OK_NO_DATA)) as [->|Hnd].
  { rewrite _update_no_data_run. unfold calls. simpl. lia. }
  unfold calls. rewrite _update_failure_run by done.
  cbn [trace final with_managed _managed_external_ids].
  rewrite removal_trace_calls, signals_dispatcher_send.
  rewrite (constructed_dispatcher_send SIGNAL_DELETE_ENTITY).
  rewrite count_of_delete_signals. unfold indicator at 3.
  rewrite decide_False by set_solver. unfold count_of. simpl. lia.
Qed.

Lemma _update_keeps_managed_have_entries status
    (entries : list FeedEntry.t) self :
  managed_have_entries self →
  managed_have_entries (final (_update (status, entries) self)).
Proof.
  intros Hinv. unfold managed_have_entries in *.
  destruct (decide (status = UPDATE_OK)) as [->|Hok].
  { rewrite _update_ok_run. simpl. by rewrite dom_entries_by_id. }
  destruct (decide (status = UPDATE_OK_NO_DATA)) as [->|Hnd].
  { by rewrite _update_no_data_run. }
  rewrite _update_failure_run by done. simpl. set_solver.
Qed.

(** ** Consecutive cycles *)

Lemma updates_nil self :
  updates [] self = {| result := inr tt; final := self; trace := [] |}.
Proof. done. Qed.

Lemma updates_cons fetched fetches self :
  updates (fetched :: fetches) self
  = let o := _update fetched self in
    let o' := updates fetches (final o) in
    {| result := result o'; final := final o';
       trace := trace o ++ trace o' |}.
Proof.
  unfold updates. cbn [for_in]. unfold mbind at 1. unfold M_bind.
  destruct fetched as [status entries]. by rewrite _update_result.
Qed.

End counting.


Lemma updates_keep_managed_have_entries `{SetIteration}
    (fetches : list (string * list FeedEntry.t)) self :
  managed_have_entries self →
  managed_have_entries (final (updates fetches self)).
Proof.
  revert self. induction fetches as [|fetched fetches IH]; intros self Hinv.
  - by rewrite updates_nil.
  - rewrite updates_cons. cbn [final]. apply IH.
    destruct fetched as [status entries].
    by apply _update_keeps_managed_have_entries.
Qed.

(** X2: after any sequence of cycles of a manager built by [__init__],
    every managed identifier has an entry in [feed_entries]. *)
Theorem managed_ids_have_entries `{SetIteration}
    (fetches : list (string * list FeedEntry.t)) i :
  let o := updates fetches __init__ in
  i ∈ _managed_external_ids (final o) →
  is_Some (feed_entries (final o) !! i).
Proof.
  cbv zeta. intros Hi. apply elem_of_dom.
  revert Hi. apply updates_keep_managed_have_entries.
  unfold managed_have_entries. done.
Qed.

Lemma managed_ids_have_entries_witness :
  is_Some
    (feed_entries
       (final (@updates elements_iteration
                 [(UPDATE_OK, [sample_entry "A"]); (UPDATE_OK_NO_DATA, [])]
                 __init__)) !! "A").
Proof.
  apply (managed_ids_have_entries (H := elements_iteration)
           [(UPDATE_OK, [sample_entry "A"]); (UPDATE_OK_NO_DATA, [])] "A").
  vm_compute. reflexivity.
Defined.

(** X3: over any sequence of cycles, for every identifier, the number of
    entities constructed for it plus one if it was managed at the start
    equals the number of delete signals sent for it plus one if it is
    managed at the end. *)
Theorem updates_balance `{SetIteration}
    (fetches : list (string * list FeedEntry.t)) self i :
  let o := updates fetches self in
  count_of i (constructed (calls o))
    + indicator i (_managed_external_ids self)
  = count_of (SIGNAL_DELETE_ENTITY i) (signals (calls o))
    + indicator i (_managed_external_ids (final o)).
Proof.
  cbv zeta. revert self.
  induction fetches as [|[status entries] fetches IH]; intros self.
  - rewrite updates_nil. unfold calls, count_of. simpl. lia.
  - rewrite updates_cons. unfold calls in *. cbn [final trace].
    rewrite fmap_app, constructed_app, signals_app, !count_of_app.
    pose proof (_update_balance status entries self i) as Hfirst.
    cbv zeta in Hfirst. unfold calls in Hfirst.
    specialize (IH (final (_update (status, entries) self))). lia.
Qed.

(** ** What the collaborators see during a cycle *)

Lemma entries_by_id_Some (l : list FeedEntry.t) i e :
  entries_by_id l !! i = Some e → e ∈ l ∧ FeedEntry.external_id e = i.
Proof.
  rewrite entries_by_id_lookup.
  intros [Hi He]%last_Some_elem_of%list_elem_of_filter. done.
Qed.

Lemma NoDup_not_in_take (l : list string) k x :
  NoDup l → l !! k = Some x → x ∉ take k l.
Proof.
  intros Hnd Hk (j & Hj)%list_elem_of_lookup.
  apply lookup_take_Some in Hj as [Hj Hlt].
  pose proof (NoDup_lookup _ _ _ _ Hnd Hk Hj). lia.
Qed.

Lemma update_trace_lookup ids self k c snap :
  update_trace ids self !! k = Some (c, snap) →
  ∃ i, ids !! k = Some i
       ∧ c = dispatcher_send (SIGNAL_UPDATE_ENTITY i) ∧ snap = self.
Proof.
  unfold update_trace. rewrite list_lookup_fmap.
  intros (i & Hi & [= -> ->])%fmap_Some. eauto.
Qed.

(** The parts of the trace of a successful cycle. *)
Lemma ok_trace_lookup `{SetIteration} (entries : list FeedEntry.t)
    self k c snap :
  let T := _managed_external_ids self in
  let F := fetched_ids entries in
  let s1 := {| feed_entries := entries_by_id entries;
               _managed_external_ids := T |} in
  trace (_update (UPDATE_OK, entries) self) !! k = Some (c, snap) →
  (∃ i, c = dispatcher_send (SIGNAL_DELETE_ENTITY i))
  ∨ (∃ i, c = dispatcher_send (SIGNAL_UPDATE_ENTITY i)
          ∧ i ∈ to_update T F ∧ snap = with_managed s1 (T ∩ F))
  ∨ (∃ i k', c = new_location_event i
             ∧ set_iter (to_create T F) !! k' = Some i
             ∧ snap = with_managed s1
                        (T ∩ F ∪ list_to_set
                                   (take k' (set_iter (to_create T F)))))
  ∨ (∃ l b, c = add_entities l b).
Proof.
  cbv zeta. rewrite _update_ok_run. cbn [trace].
  intros [Hk|[_ Hk]]%lookup_app_Some.
  { left. apply removal_trace_lookup in Hk as (i & _ & -> & _). eauto. }
  apply lookup_app_Some in Hk as [Hk|[_ Hk]].
  { right. left. apply update_trace_lookup in Hk as (i & Hi & -> & ->).
    exists i. split_and!; [done| |done].
    apply elem_of_set_iter, list_elem_of_lookup. eauto. }
  apply lookup_app_Some in Hk as [Hk|[_ Hk]].
  { right. right. left.
    apply creation_trace_lookup in Hk as (i & Hi & -> & ->).
    exists i, (k - length (removal_trace
                   (set_iter (to_remove (_managed_external_ids self)
                                (fetched_ids entries)))
                   {| feed_entries := entries_by_id entries;
                      _managed_external_ids := _managed_external_ids self |})
                 - length (update_trace
                   (set_iter (to_update (_managed_external_ids self)
                                (fetched_ids entries)))
                   (with_managed
                      {| feed_entries := entries_by_id entries;
                         _managed_external_ids :=
                           _managed_external_ids self |}
                      (_managed_external_ids self ∩ fetched_ids entries)))).
    done. }
  right. right. right.
  apply list_lookup_singleton_Some in Hk as [_ [= <- _]]. eauto.
Qed.

Lemma not_ok_trace_lookup `{SetIteration} status
    (entries : list FeedEntry.t) self k c snap :
  status ≠ UPDATE_OK →
  trace (_update (status, entries) self) !! k = Some (c, snap) →
  ∃ i, c = dispatcher_send (SIGNAL_DELETE_ENTITY i).
Proof.
  intros Hok. destruct (decide (status = UPDATE_OK_NO_DATA)) as [->|Hnd].
  { by rewrite _update_no_data_run. }
  rewrite _update_failure_run by done. cbn [trace].
  intros (i & _ & -> & _)%removal_trace_lookup. eauto.
Qed.

(** X4: an update signal is only sent in a cycle whose fetch status is
    [UPDATE_OK], for an identifier that was managed before the cycle and
    still is; when it is sent, [feed_entries] already is the dictionary
    of the fetched entries and holds an entry for that identifier. *)
Theorem update_signal_sees_fetched_entry `{SetIteration} status
    (entries : list FeedEntry.t) self k i snap :
  trace (_update (status, entries) self) !! k
    = Some (dispatcher_send (SIGNAL_UPDATE_ENTITY i), snap) →
  status = UPDATE_OK
  ∧ i ∈ _managed_external_ids self
  ∧ i ∈ _managed_external_ids snap
  ∧ feed_entries snap = entries_by_id entries
  ∧ is_Some (feed_entries snap !! i).
Proof.
  intros Hk. destruct (decide (status = UPDATE_OK)) as [->|Hok]; last first.
  { apply not_ok_trace_lookup in Hk as (j & Hj); [|done].
    apply dispatcher_send_inj in Hj. symmetry in Hj.
    by apply SIGNAL_DELETE_UPDATE_ne in Hj. }
  apply ok_trace_lookup in Hk
    as [(j & Hj)|[(j & Hj & Hin & ->)|[(j & k' & Hj & _)|(l & b & Hj)]]];
    try discriminate.
  apply dispatcher_send_inj, SIGNAL_UPDATE_ENTITY_inj in Hj as <-.
  apply elem_of_intersection in Hin as [HT HF].
  split_and!; [done|done| |done|].
  - simpl. by apply elem_of_intersection.
  - simpl. apply elem_of_dom. by rewrite dom_entries_by_id.
Qed.

Lemma update_signal_sees_fetched_entry_witness :
  is_Some (entries_by_id [sample_entry "B"; sample_entry "C"] !! "B").
Proof.
  pose proof (update_signal_sees_fetched_entry (H := elements_iteration)
                UPDATE_OK [sample_entry "B"; sample_entry "C"]
                (tracking [sample_entry "A"; sample_entry "B"]) 1 "B"
                {| feed_entries :=
                     entries_by_id [sample_entry "B"; sample_entry "C"];
                   _managed_external_ids := {["B"]} |}) as Hthm.
  destruct Hthm as (_ & _ & _ & _ & Hsome).
  - vm_compute. reflexivity.
  - exact Hsome.
Defined.

(** X5: an entity is only constructed in a cycle whose fetch status is
    [UPDATE_OK], for an identifier that was not managed before the cycle
    and is not managed yet when the constructor is called; the fetched
    entries are then already in [feed_entries], with an entry for that
    identifier, and the identifier is managed when the cycle ends. *)
Theorem entity_constructed_only_for_unmanaged_id `{SetIteration} status
    (entries : list FeedEntry.t) self k i snap :
  let o := _update (status, entries) self in
  trace o !! k = Some (new_location_event i, snap) →
  status = UPDATE_OK
  ∧ (i ∉ _managed_external_ids self)
  ∧ (i ∉ _managed_external_ids snap)
  ∧ feed_entries snap = entries_by_id entries
  ∧ is_Some (feed_entries snap !! i)
  ∧ i ∈ _managed_external_ids (final o).
Proof.
  cbv zeta. intros Hk.
  destruct (decide (status = UPDATE_OK)) as [->|Hok]; last first.
  { by apply not_ok_trace_lookup in Hk as (j & Hj). }
  pose proof Hk as Hk'. apply ok_trace_lookup in Hk'
    as [(j & Hj)|[(j & Hj & _)|[(j & k' & Hj & Hk' & ->)|(l & b & Hj)]]];
    try discriminate.
  injection Hj as <-.
  assert (i ∈ fetched_ids entries ∖ _managed_external_ids self)
    as [HF HT]%elem_of_difference.
  { apply (elem_of_set_iter (to_create _ _)), list_elem_of_lookup. eauto. }
  split_and!; [done|done| |done| |].
  - simpl. rewrite elem_of_union, elem_of_intersection,
      elem_of_list_to_set.
    intros [[? _]|Hin]; [done|].
    by apply (NoDup_not_in_take _ _ _ (NoDup_set_iter _) Hk').
  - simpl. apply elem_of_dom. by rewrite dom_entries_by_id.
  - rewrite _update_ok_run. done.
Qed.

Lemma entity_constructed_only_for_unmanaged_id_witness :
  "C" ∉ _managed_external_ids (tracking [sample_entry "A"; sample_entry "B"]).
Proof.
  pose proof (entity_constructed_only_for_unmanaged_id
                (H := elements_iteration)
                UPDATE_OK [sample_entry "B"; sample_entry "C"]
                (tracking [sample_entry "A"; sample_entry "B"]) 2 "C"
                {| feed_entries :=
                     entries_by_id [sample_entry "B"; sample_entry "C"];
                   _managed_external_ids := {["B"]} |}) as Hthm.
  cbv zeta in Hthm. destruct Hthm as (_ & Hnot & _).
  - vm_compute. reflexivity.
  - exact Hnot.
Defined.

Lemma add_entities_calls `{SetIteration} status
    (entries : list FeedEntry.t) self :
  let T := _managed_external_ids self in
  let F := fetched_ids entries in
  registrations (calls (_update (status, entries) self))
  = if decide (status = UPDATE_OK)
    then [(NswRuralFireServiceLocationEvent.__init__
             <$> set_iter (to_create T F), true)]
    else [].
Proof.
  cbv zeta. destruct (decide (status = UPDATE_OK)) as [->|Hok].
  - apply registrations_update_ok.
  - destruct (decide (status = UPDATE_OK_NO_DATA)) as [->|Hnd].
    + by rewrite _update_no_data_run.
    + unfold calls. rewrite _update_failure_run by done. cbn [trace].
      rewrite removal_trace_calls. apply registrations_dispatcher_send.
Qed.

(** X6: every entity that a cycle hands to [add_entities] is handed
    over with the flag [True], is as its constructor built it, has a
    managed identifier, and finds a fetched entry under its identifier
    in the manager's [feed_entries]: its first [async_update] fills it
    from that entry. *)
Theorem registered_entity_finds_its_entry `{SetIteration} status
    (entries : list FeedEntry.t) self new_entities update_before_add e :
  let o := _update (status, entries) self in
  (new_entities, update_before_add) ∈ registrations (calls o) →
  e ∈ new_entities →
  update_before_add = true
  ∧ e = NswRuralFireServiceLocationEvent.__init__
          (NswRuralFireServiceLocationEvent._external_id e)
  ∧ NswRuralFireServiceLocationEvent._external_id e
      ∈ _managed_external_ids (final o)
  ∧ ∃ entry,
      entry ∈ entries
      ∧ FeedEntry.external_id entry
        = NswRuralFireServiceLocationEvent._external_id e
      ∧ NswRuralFireServiceLocationEvent.async_update e
          (feed_entries (final o))
        = NswRuralFireServiceLocationEvent._update_from_feed e entry.
Proof.
  cbv zeta. intros Hreg He.
  pose proof (add_entities_calls status entries self) as Hcalls.
  cbv zeta in Hcalls. rewrite Hcalls in Hreg.
  destruct (decide (status = UPDATE_OK)) as [->|Hok];
    [|by apply elem_of_nil in Hreg].
  apply list_elem_of_singleton in Hreg as [= -> ->].
  apply list_elem_of_fmap in He as (i & -> & Hi%elem_of_set_iter).
  unfold to_create in Hi. apply elem_of_difference in Hi as [HF HT].
  rewrite _update_ok_run. cbn [final with_managed feed_entries
    _managed_external_ids NswRuralFireServiceLocationEvent._external_id
    NswRuralFireServiceLocationEvent.__init__].
  split_and!; [done|done|done|].
  rewrite <- dom_entries_by_id in HF.
  apply elem_of_dom in HF as [entry Hentry].
  exists entry. pose proof Hentry as [Hin Hid]%entries_by_id_Some.
  split_and!; [done|done|].
  unfold NswRuralFireServiceLocationEvent.async_update. simpl.
  by rewrite Hentry.
Qed.

Lemma registered_entity_finds_its_entry_witness :
  ∃ entry,
    entry ∈ [sample_entry "B"; sample_entry "C"]
    ∧ FeedEntry.external_id entry = "C".
Proof.
  pose proof (registered_entity_finds_its_entry (H := elements_iteration)
                UPDATE_OK [sample_entry "B"; sample_entry "C"]
                (tracking [sample_entry "A"; sample_entry "B"])
                [NswRuralFireServiceLocationEvent.__init__ "C"] true
                (NswRuralFireServiceLocationEvent.__init__ "C")) as Hthm.
  cbv zeta in Hthm. destruct Hthm as (_ & _ & _ & entry & Hin & Hid & _).
  - vm_compute. left.
  - left.
  - exists entry. split; [exact Hin|exact Hid].
Defined.

(** ** The methods on their own *)

Lemma remove_loop_outcome ids self :
  NoDup ids →
  let o := for_in ids tt
             (λ external_id _,
                managed_remove external_id;;
                perform (dispatcher_send (SIGNAL_DELETE_ENTITY external_id)))
             self in
  ∃ removed,
    removed `prefix_of` ids
    ∧ (∀ i, i ∈ removed → i ∈ _managed_external_ids self)
    ∧ trace o = removal_trace removed self
    ∧ final o = with_managed self
                  (_managed_external_ids self ∖ list_to_set removed)
    ∧ ((removed = ids ∧ result o = inr tt)
       ∨ (∃ i, ids !! length removed = Some i
               ∧ (i ∉ _managed_external_ids self)
               ∧ result o = inl (KeyError i))).
Proof.
  intros Hnd. revert self. unfold_M.
  induction Hnd as [|i ids Hi Hnd IH]; intros self.
  - exists []. simpl. unfold_M. split_and!; [done|by intros ? ?%elem_of_nil|done| |by left].
    rewrite difference_empty_L. by rewrite with_managed_id.
  - simpl. unfold_M. destruct (decide (i ∈ _managed_external_ids self)) as [Hin|Hout].
    + simpl.
      destruct (IH {| feed_entries := feed_entries self;
                      _managed_external_ids :=
                        _managed_external_ids self ∖ {[i]} |})
        as (removed & Hpre & Hman & Htr & Hfin & Hres).
      exists (i :: removed). split_and!.
      * by apply prefix_cons.
      * intros j [->|Hj]%elem_of_cons; [done|].
        apply Hman in Hj. simpl in Hj. set_solver.
      * simpl. by rewrite Htr.
      * rewrite Hfin. unfold with_managed. simpl. f_equal.
        by rewrite difference_difference_l_L.
      * destruct Hres as [[-> Hres]|(j & Hj & Hjout & Hres)].
        { left. done. }
        right. exists j. simpl. split_and!; [done| |done].
        simpl in Hjout. intros Hjin. apply Hjout.
        apply elem_of_difference. split; [done|].
        intros ->%elem_of_singleton. apply Hi.
        apply list_elem_of_lookup. eauto.
    + simpl. exists []. split_and!; [apply prefix_nil|by intros ? ?%elem_of_nil|done| |].
      * simpl. rewrite difference_empty_L. by rewrite with_managed_id.
      * right. exists i. done.
Qed.

(** X7: [_remove_entities] succeeds exactly when every given identifier
    is managed; otherwise it raises [KeyError] for a given identifier
    that is not managed.  In both cases the identifiers whose delete
    signal has been sent are exactly those taken out of the managed set,
    they were given and managed, each got one signal, nothing else was
    called and [feed_entries] is untouched. *)
Theorem _remove_entities_outcome `{SetIteration}
    (external_ids : gset string) self :
  let o := _remove_entities external_ids self in
  (result o = inr tt ↔ external_ids ⊆ _managed_external_ids self)
  ∧ (∀ e, result o = inl e →
       ∃ i, e = KeyError i ∧ i ∈ external_ids
            ∧ i ∉ _managed_external_ids self)
  ∧ ∃ removed,
      calls o = (λ i, dispatcher_send (SIGNAL_DELETE_ENTITY i)) <$> removed
      ∧ NoDup removed
      ∧ list_to_set removed ⊆ external_ids ∩ _managed_external_ids self
      ∧ _managed_external_ids (final o)
        = _managed_external_ids self ∖ list_to_set removed
      ∧ feed_entries (final o) = feed_entries self.
Proof.
  cbv zeta. unfold _remove_entities, calls.
  destruct (remove_loop_outcome (set_iter external_ids) self
              (NoDup_set_iter _))
    as (removed & Hpre & Hman & Htr & Hfin & Hres).
  assert (∀ i, i ∈ removed → i ∈ external_ids) as Hgiven.
  { intros i Hi. apply elem_of_set_iter.
    destruct Hpre as [rest ->]. apply elem_of_app. by left. }
  split_and!.
  - destruct Hres as [[-> ->]|(i & Hi & Hout & ->)].
    + split; [|done]. intros _ i Hi. apply Hman. by apply elem_of_set_iter.
    + split; [done|]. intros Hsub. destruct Hout. apply Hsub.
      apply elem_of_set_iter, list_elem_of_lookup. eauto.
  - intros e He. destruct Hres as [[_ Hres]|(i & Hi & Hout & Hres)];
      rewrite Hres in He; [done|]. injection He as <-.
    exists i. split_and!; [done| |done].
    apply elem_of_set_iter, list_elem_of_lookup. eauto.
  - exists removed. rewrite Htr, Hfin, removal_trace_calls.
    split_and!; [done| |  |done|done].
    + destruct Hpre as [rest Hrest].
      pose proof (NoDup_set_iter external_ids) as Hnd.
      rewrite Hrest in Hnd. by apply NoDup_app in Hnd as [Hnd _].
    + intros i Hi%elem_of_list_to_set. apply elem_of_intersection. eauto.
Qed.

(** X8: [_generate_new_entities] never raises and constructs one entity
    for every given identifier, also for those already managed; it ends
    with one call of [add_entities], with the flag [True], that carries
    the constructed entities in the order of construction; the given
    identifiers are added to the managed ones and [feed_entries] is
    untouched. *)
Theorem _generate_new_entities_outcome `{SetIteration}
    (external_ids : gset string) self :
  let o := _generate_new_entities external_ids self in
  result o = inr tt
  ∧ constructed (calls o) ≡ₚ elements external_ids
  ∧ signals (calls o) = []
  ∧ registrations (calls o)
    = [(NswRuralFireServiceLocationEvent.__init__ <$> constructed (calls o),
        true)]
  ∧ last (calls o)
    = Some (add_entities
              (NswRuralFireServiceLocationEvent.__init__
                 <$> constructed (calls o)) true)
  ∧ _managed_external_ids (final o)
    = _managed_external_ids self ∪ external_ids
  ∧ feed_entries (final o) = feed_entries self.
Proof.
  cbv zeta. unfold calls. rewrite _generate_new_entities_run.
  cbn [result final trace with_managed feed_entries _managed_external_ids].
  rewrite fmap_app, creation_trace_calls. cbn [fmap list_fmap fst].
  rewrite constructed_app, signals_app, registrations_app.
  rewrite constructed_new_location_event, signals_new_location_event,
    registrations_new_location_event.
  cbn [constructed signals registrations omap app].
  rewrite app_nil_r, last_snoc.
  split_and!; try done. apply set_iter_perm.
Qed.

(** X9: [_update_entities] never raises and never changes the manager;
    it sends one update signal for each given identifier, managed or
    not, and makes no other call. *)
Theorem _update_entities_outcome `{SetIteration}
    (external_ids : gset string) self :
  let o := _update_entities external_ids self in
  result o = inr tt
  ∧ final o = self
  ∧ calls o = dispatcher_send <$> signals (calls o)
  ∧ signals (calls o) ≡ₚ SIGNAL_UPDATE_ENTITY <$> elements external_ids
  ∧ NoDup (signals (calls o))
  ∧ Forall (λ ob : observation, ob.2 = self) (trace o).
Proof.
  cbv zeta. unfold calls. rewrite _update_entities_run.
  cbn [result final trace]. rewrite update_trace_calls,
    signals_dispatcher_send.
  split_and!; try done.
  - by rewrite <- list_fmap_compose.
  - by rewrite set_iter_perm.
  - apply NoDup_update_signals.
  - eapply Forall_impl; [apply update_trace_Forall|]. by intros ob [_ ?].
Qed.

(** [_remove_entities] given an identifier that is not managed. *)
Example scenario_remove_unmanaged :
  let o := @_remove_entities elements_iteration {["A"]} __init__ in
  result o = inl (KeyError "A") ∧ trace o = [] ∧ final o = __init__.
Proof. cbv zeta. split_and!; vm_compute; reflexivity. Qed.

(** ** The dictionary of fetched entries, continued *)

(** X10: when the fetched entries carry pairwise different identifiers,
    the dictionary built from them returns each entry under its own
    identifier and has as many keys as there are entries. *)
Theorem entries_by_id_unique_ids (l : list FeedEntry.t) :
  NoDup (FeedEntry.external_id <$> l) →
  (∀ e, e ∈ l → entries_by_id l !! FeedEntry.external_id e = Some e)
  ∧ size (entries_by_id l) = length l.
Proof.
  induction l as [|x l IH] using rev_ind.
  { intros _. split; [by intros e ?%elem_of_nil|done]. }
  rewrite fmap_app, NoDup_app. intros (Hnd & Hfresh & _).
  destruct (IH Hnd) as [Hlook Hsize].
  rewrite entries_by_id_snoc. split.
  - intros e [He|He]%elem_of_app;
      [|apply list_elem_of_singleton in He as ->].
    + rewrite lookup_insert_ne; [by apply Hlook|].
      intros Heq. apply (Hfresh (FeedEntry.external_id e)).
      * apply list_elem_of_fmap. eauto.
      * rewrite <- Heq. simpl. by left.
    + by rewrite lookup_insert_eq.
  - rewrite map_size_insert_None, Hsize, length_app; [simpl; lia|].
    apply not_elem_of_dom. rewrite dom_entries_by_id. unfold fetched_ids.
    rewrite elem_of_list_to_set. intros Hin.
    apply (Hfresh _ Hin). simpl. by left.
Qed.

Lemma entries_by_id_unique_ids_witness :
  size (entries_by_id [sample_entry "A"; sample_entry "B"]) = 2.
Proof.
  apply (entries_by_id_unique_ids [sample_entry "A"; sample_entry "B"]).
  simpl. apply NoDup_cons. split.
  - intros ?%list_elem_of_singleton. discriminate.
  - apply NoDup_singleton.
Defined.

(** X11: whatever identifiers the fetched entries carry, the dictionary
    built from them has exactly these identifiers as keys, never more
    keys than there are entries, and every value it holds is a fetched
    entry stored under its own identifier. *)
Theorem entries_by_id_sound (l : list FeedEntry.t) :
  dom (entries_by_id l) = fetched_ids l
  ∧ size (entries_by_id l) ≤ length l
  ∧ ∀ i e, entries_by_id l !! i = Some e →
           e ∈ l ∧ FeedEntry.external_id e = i.
Proof.
  split_and!.
  - apply dom_entries_by_id.
  - induction l as [|x l IH] using rev_ind; [done|].
    rewrite entries_by_id_snoc, length_app. simpl.
    destruct (entries_by_id l !! FeedEntry.external_id x) as [y|] eqn:Hx.
    + rewrite map_size_insert_Some by eauto. lia.
    + rewrite map_size_insert_None by done. lia.
  - intros i e. apply entries_by_id_Some.
Qed.

(** ** Recovery after a failed fetch *)

(** X12: a cycle whose fetch status is [UPDATE_OK] leaves the manager in
    a state that depends on the fetched entries only; and when it
    follows a cycle whose fetch failed, it sends no signal at all and
    constructs one entity for every fetched identifier. *)
Theorem ok_cycle_after_failure `{SetIteration} status
    (entries1 entries2 : list FeedEntry.t) self :
  status ≠ UPDATE_OK → status ≠ UPDATE_OK_NO_DATA →
  let o1 := _update (status, entries1) self in
  let o2 := _update (UPDATE_OK, entries2) (final o1) in
  final o2 = tracking entries2
  ∧ final (_update (UPDATE_OK, entries2) self) = tracking entries2
  ∧ signals (calls o2) = []
  ∧ constructed (calls o2) ≡ₚ elements (fetched_ids entries2)
  ∧ NoDup (constructed (calls o2)).
Proof.
  intros Hok Hnd. cbv zeta.
  rewrite signals_update_ok, constructed_update_ok.
  rewrite !_update_ok_run, _update_failure_run by done.
  cbn [final with_managed feed_entries _managed_external_ids].
  unfold to_remove, to_update, to_create.
  rewrite difference_empty_L.
  replace (∅ ∖ fetched_ids entries2) with (∅ : gset string) by set_solver.
  replace (∅ ∩ fetched_ids entries2) with (∅ : gset string) by set_solver.
  rewrite set_iter_empty. cbn [fmap list_fmap app].
  split_and!; try done.
  - apply set_iter_perm.
  - apply NoDup_set_iter.
Qed.

Lemma ok_cycle_after_failure_witness :
  final (@_update elements_iteration (UPDATE_OK, [sample_entry "B"])
           (final (@_update elements_iteration (UPDATE_ERROR, [])
                     (tracking [sample_entry "A"]))))
  = tracking [sample_entry "B"].
Proof.
  apply (ok_cycle_after_failure (H := elements_iteration) UPDATE_ERROR []
           [sample_entry "B"] (tracking [sample_entry "A"]));
    intros Heq; discriminate Heq.
Defined.

(** ** The entity *)



(** X14: [async_update] never changes the external id of an entity, and
    running it twice against the same entries gives what running it
    once gives. *)
Theorem async_update_idempotent (self : NswRuralFireServiceLocationEvent.t)
    (feed_entries : gmap string FeedEntry.t) :
  let self' :=
    NswRuralFireServiceLocationEvent.async_update self feed_entries in
  NswRuralFireServiceLocationEvent._external_id self'
  = NswRuralFireServiceLocationEvent._external_id self
  ∧ NswRuralFireServiceLocationEvent.async_update self' feed_entries
    = self'.
Proof.
  cbv zeta. unfold NswRuralFireServiceLocationEvent.async_update.
  destruct (feed_entries !! NswRuralFireServiceLocationEvent._external_id
                              self) as [entry|] eqn:Hentry.
  - simpl. by rewrite Hentry.
  - by rewrite Hentry.
Qed.

(** X15: the signals an entity connects to are the delete and the update
    signal of its own external id: a delete signal sent for an
    identifier reaches [_delete_callback] of the entities with that
    external id and nothing else, and likewise for update signals. *)
Theorem subscriptions_follow_external_id
    (self : NswRuralFireServiceLocationEvent.t) (i : string)
    (target : NswRuralFireServiceLocationEvent.callback) :
  ((SIGNAL_DELETE_ENTITY i, target)
     ∈ NswRuralFireServiceLocationEvent.async_added_to_hass self
   ↔ i = NswRuralFireServiceLocationEvent._external_id self
     ∧ target = NswRuralFireServiceLocationEvent._delete_callback)
  ∧ ((SIGNAL_UPDATE_ENTITY i, target)
       ∈ NswRuralFireServiceLocationEvent.async_added_to_hass self
     ↔ i = NswRuralFireServiceLocationEvent._external_id self
       ∧ target = NswRuralFireServiceLocationEvent._update_callback).
Proof.
  unfold NswRuralFireServiceLocationEvent.async_added_to_hass.
  split; split.
  - intros [Heq|Heq%list_elem_of_singleton]%elem_of_cons;
      pose proof (f_equal fst Heq) as Hsig;
      pose proof (f_equal snd Heq) as Htarget; cbn [fst snd] in *.
    + by apply SIGNAL_DELETE_ENTITY_inj in Hsig.
    + by apply SIGNAL_DELETE_UPDATE_ne in Hsig.
  - intros [-> ->]. by left.
  - intros [Heq|Heq%list_elem_of_singleton]%elem_of_cons;
      pose proof (f_equal fst Heq) as Hsig;
      pose proof (f_equal snd Heq) as Htarget; cbn [fst snd] in *.
    + symmetry in Hsig. by apply SIGNAL_DELETE_UPDATE_ne in Hsig.
    + by apply SIGNAL_UPDATE_ENTITY_inj in Hsig.
  - intros [-> ->]. right. by left.
Qed.

(** ** State attributes of an entity *)

Lemma add_attribute_lookup d key value k :
  NswRuralFireServiceLocationEvent.add_attribute d (key, value) !! k
  = if decide (key = k)
    then (if truthy value || isinstance_bool value then value
          else d !! k)
    else d !! k.
Proof.
  unfold NswRuralFireServiceLocationEvent.add_attribute.
  destruct value as [v|].
  - destruct (truthy (Some v) || isinstance_bool (Some v)).
    + rewrite lookup_insert. by case_decide.
    + by case_decide.
  - simpl. by case_decide.
Qed.

Lemma kept_value_not_empty v :
  truthy (Some v) || isinstance_bool (Some v) = true → v ≠ str_value "".
Proof. intros Hkept ->. by vm_compute in Hkept. Qed.

Lemma foldl_add_attribute_sound items d k v :
  foldl NswRuralFireServiceLocationEvent.add_attribute d items !! k
  = Some v →
  d !! k = Some v
  ∨ ((k, Some v) ∈ items
     ∧ truthy (Some v) || isinstance_bool (Some v) = true).
Proof.
  induction items as [|[key value] items IH] using rev_ind; [by left|].
  rewrite foldl_app. cbn [foldl]. rewrite add_attribute_lookup.
  case_decide as Hkey.
  - subst key.
    destruct (truthy value || isinstance_bool value) eqn:Hkept.
    + intros ->. right. split; [|done]. apply elem_of_app. right. by left.
    + intros [?|[? ?]]%IH; [by left|]. right. split; [|done].
      apply elem_of_app. by left.
  - intros [?|[? ?]]%IH; [by left|]. right. split; [|done].
    apply elem_of_app. by left.
Qed.

Lemma foldl_add_attribute_complete
    (items : list (string * option attribute_value)) :
  NoDup items.*1 →
  ∀ key value,
    (key, value) ∈ items →
    foldl NswRuralFireServiceLocationEvent.add_attribute ∅ items !! key
    = if truthy value || isinstance_bool value then value else None.
Proof.
  induction items as [|[key' value'] items IH] using rev_ind.
  { by intros _ ? ? ?%elem_of_nil. }
  rewrite fmap_app, NoDup_app. simpl.
  intros (Hnd & Hfresh & _) key value Hin.
  rewrite foldl_app. cbn [foldl]. rewrite add_attribute_lookup.
  apply elem_of_app in Hin as [Hin|Hin].
  - rewrite decide_False; [by apply IH|].
    intros ->. apply (Hfresh key); [|by left].
    apply list_elem_of_fmap. by exists (key, value).
  - apply list_elem_of_singleton in Hin as [= -> ->].
    rewrite decide_True by done.
    destruct (truthy value' || isinstance_bool value') eqn:Hkept; [done|].
    destruct (foldl NswRuralFireServiceLocationEvent.add_attribute ∅ items
                !! key') as [v|] eqn:Hv; [|done].
    apply foldl_add_attribute_sound in Hv as [Hv|[Hv _]]; [done|].
    destruct (Hfresh key'); [|by left].
    apply list_elem_of_fmap. by exists (key', Some v).
Qed.

(** X16: every state attribute is one of the pairs the loop runs over,
    with a value that is not [None] and not the empty string; so the
    keys are among the eleven attribute keys. *)
Theorem device_state_attributes_sound (ATTR_ATTRIBUTION : string)
    (self : NswRuralFireServiceLocationEvent.t) key v :
  NswRuralFireServiceLocationEvent.device_state_attributes
    ATTR_ATTRIBUTION self !! key = Some v →
  (key, Some v)
    ∈ NswRuralFireServiceLocationEvent.attribute_items
        ATTR_ATTRIBUTION self
  ∧ v ≠ str_value ""
  ∧ key ∈ [ATTR_EXTERNAL_ID; ATTR_CATEGORY; ATTR_LOCATION;
           ATTR_ATTRIBUTION; ATTR_PUBLICATION_DATE; ATTR_COUNCIL_AREA;
           ATTR_STATUS; ATTR_TYPE; ATTR_FIRE; ATTR_SIZE;
           ATTR_RESPONSIBLE_AGENCY].
Proof.
  unfold NswRuralFireServiceLocationEvent.device_state_attributes.
  intros [Hv|[Hin Hkept]]%foldl_add_attribute_sound; [done|].
  split_and!; [done|by apply kept_value_not_empty|].
  apply (list_elem_of_fmap_2 fst) in Hin. exact Hin.
Qed.

Lemma device_state_attributes_sound_witness :
  bool_value true ≠ str_value ""
  ∧ ATTR_FIRE ∈ [ATTR_EXTERNAL_ID; ATTR_CATEGORY; ATTR_LOCATION;
                 "attribution"; ATTR_PUBLICATION_DATE; ATTR_COUNCIL_AREA;
                 ATTR_STATUS; ATTR_TYPE; ATTR_FIRE; ATTR_SIZE;
                 ATTR_RESPONSIBLE_AGENCY].
Proof.
  pose proof (device_state_attributes_sound "attribution"
                (NswRuralFireServiceLocationEvent._update_from_feed
                   (NswRuralFireServiceLocationEvent.__init__ "A")
                   (sample_entry "A"))
                ATTR_FIRE (bool_value true)) as Hthm.
  destruct Hthm as (_ & Hv & Hkey).
  - vm_compute. reflexivity.
  - split; [exact Hv|exact Hkey].
Defined.

Lemma attribute_keys_NoDup (ATTR_ATTRIBUTION : string)
    (self : NswRuralFireServiceLocationEvent.t) :
  ATTR_ATTRIBUTION
    ∉ [ATTR_EXTERNAL_ID; ATTR_CATEGORY; ATTR_LOCATION;
       ATTR_PUBLICATION_DATE; ATTR_COUNCIL_AREA; ATTR_STATUS; ATTR_TYPE;
       ATTR_FIRE; ATTR_SIZE; ATTR_RESPONSIBLE_AGENCY] →
  NoDup (NswRuralFireServiceLocationEvent.attribute_items
           ATTR_ATTRIBUTION self).*1.
Proof.
  intros Hfresh.
  unfold NswRuralFireServiceLocationEvent.attribute_items.
  cbn [fmap list_fmap fst].
  change (NoDup ([ATTR_EXTERNAL_ID; ATTR_CATEGORY; ATTR_LOCATION]
                 ++ ATTR_ATTRIBUTION
                 :: [ATTR_PUBLICATION_DATE; ATTR_COUNCIL_AREA; ATTR_STATUS;
                     ATTR_TYPE; ATTR_FIRE; ATTR_SIZE;
                     ATTR_RESPONSIBLE_AGENCY])).
  rewrite <- Permutation_middle. apply NoDup_cons. split; [exact Hfresh|].
  apply (bool_decide_unpack _). vm_compute. exact I.
Qed.

(** X17: when [ATTR_ATTRIBUTION] differs from the ten attribute keys of
    the module, the state attributes hold, under each of the eleven
    keys, the value paired with it if that value is true in a condition
    or is a boolean, and no value otherwise. *)
Theorem device_state_attributes_complete (ATTR_ATTRIBUTION : string)
    (self : NswRuralFireServiceLocationEvent.t) key value :
  ATTR_ATTRIBUTION
    ∉ [ATTR_EXTERNAL_ID; ATTR_CATEGORY; ATTR_LOCATION;
       ATTR_PUBLICATION_DATE; ATTR_COUNCIL_AREA; ATTR_STATUS; ATTR_TYPE;
       ATTR_FIRE; ATTR_SIZE; ATTR_RESPONSIBLE_AGENCY] →
  (key, value)
    ∈ NswRuralFireServiceLocationEvent.attribute_items
        ATTR_ATTRIBUTION self →
  NswRuralFireServiceLocationEvent.device_state_attributes
    ATTR_ATTRIBUTION self !! key
  = if truthy value || isinstance_bool value then value else None.
Proof.
  intros Hfresh Hin.
  unfold NswRuralFireServiceLocationEvent.device_state_attributes.
  apply foldl_add_attribute_complete; [|done].
  by apply attribute_keys_NoDup.
Qed.

Lemma device_state_attributes_complete_witness :
  NswRuralFireServiceLocationEvent.device_state_attributes "attribution"
    (NswRuralFireServiceLocationEvent._update_from_feed
       (NswRuralFireServiceLocationEvent.__init__ "A") (sample_entry "A"))
    !! ATTR_SIZE
  = None.
Proof.
  apply (device_state_attributes_complete "attribution"
           (NswRuralFireServiceLocationEvent._update_from_feed
              (NswRuralFireServiceLocationEvent.__init__ "A")
              (sample_entry "A"))
           ATTR_SIZE None).
  - apply (bool_decide_unpack _). vm_compute. exact I.
  - do 9 right. left.
Defined.

(** X18: the state attributes of an entity as its constructor leaves it
    hold the external id alone, and nothing at all when the external id
    is the empty string. *)
Theorem device_state_attributes_of_new_entity (ATTR_ATTRIBUTION : string)
    (external_id : string) :
  NswRuralFireServiceLocationEvent.device_state_attributes
    ATTR_ATTRIBUTION
    (NswRuralFireServiceLocationEvent.__init__ external_id)
  = if decide (external_id = "") then ∅
    else {[ATTR_EXTERNAL_ID := str_value external_id]}.
Proof.
  unfold NswRuralFireServiceLocationEvent.device_state_attributes,
    NswRuralFireServiceLocationEvent.attribute_items,
    NswRuralFireServiceLocationEvent.add_attribute.
  simpl. case_decide as Hid.
  - by rewrite bool_decide_false by (intros Hne; by apply Hne).
  - by rewrite bool_decide_true by done.
Qed.

(** X19: whatever [ATTR_ATTRIBUTION] is, a fire flag that is set is in
    the state attributes under [ATTR_FIRE], also when it is [False]. *)
Theorem device_state_attributes_fire (ATTR_ATTRIBUTION : string)
    (self : NswRuralFireServiceLocationEvent.t) (b : bool) :
  NswRuralFireServiceLocationEvent._fire self = Some b →
  NswRuralFireServiceLocationEvent.device_state_attributes
    ATTR_ATTRIBUTION self !! ATTR_FIRE
  = Some (bool_value b).
Proof.
  intros Hfire.
  unfold NswRuralFireServiceLocationEvent.device_state_attributes,
    NswRuralFireServiceLocationEvent.attribute_items.
  cbn [foldl].
  rewrite add_attribute_lookup, decide_False by done.
  rewrite add_attribute_lookup, decide_False by done.
  rewrite add_attribute_lookup, decide_True by done.
  rewrite Hfire. simpl. by rewrite orb_true_r.
Qed.

Lemma device_state_attributes_fire_witness :
  NswRuralFireServiceLocationEvent.device_state_attributes "attribution"
    (NswRuralFireServiceLocationEvent._update_from_feed
       (NswRuralFireServiceLocationEvent.__init__ "A") (sample_entry "A"))
    !! ATTR_FIRE
  = Some (bool_value true).
Proof.
  apply device_state_attributes_fire. reflexivity.
Defined.
